(** * SQFLint client: debounced scheduler, process runner, stream decoder

    A shallow embedding of [server/src/sqflint.ts] (class [SQFLint] and
    namespace [SQFLint]) and the properties of its specification.

    Conventions of the embedding.
    - A JavaScript string is a [string]: one [ascii] per code unit, so the
      strings covered are those with code units below 256.
    - A JavaScript [number] that holds a line or a column is an integer
      ([Z]); [NaN] and [undefined] are kept apart, because indexing an array
      out of range and subtracting from [undefined] produce them.
    - A field that a decoded record may lack has an [option] type, [None]
      standing for [undefined].
    - The runtime primitives that are not part of the file ([JSON.parse],
      [Java.spawn], timers, the child's events) are parameters of the
      definitions or events of the transition system. *)

From Stdlib Require Import ZArith String Ascii List Lia Bool.
From stdpp Require Import base list strings.

Open Scope string_scope.

(** ** JavaScript string primitives used by the source *)

Module JS.

Definition LF : ascii := ascii_of_nat 10.
Definition CR : ascii := ascii_of_nat 13.

(** [WhiteSpace] and [LineTerminator] code units below 256: TAB, LF, VT,
    FF, CR, SP and NBSP. These are what [String.prototype.trim] strips. *)
Definition is_ws (c : ascii) : bool :=
  let n := nat_of_ascii c in
  (Nat.leb 9 n && Nat.leb n 13) || Nat.eqb n 32 || Nat.eqb n 160.

Fixpoint trimStart (s : string) : string :=
  match s with
  | String c s' => if is_ws c then trimStart s' else s
  | EmptyString => EmptyString
  end.

Fixpoint trimEnd (s : string) : string :=
  match s with
  | EmptyString => EmptyString
  | String c s' =>
      match trimEnd s' with
      | EmptyString => if is_ws c then EmptyString else String c EmptyString
      | r => String c r
      end
  end.

(** [s.trim()] *)
Definition trim (s : string) : string := trimEnd (trimStart s).

(** [s.length] *)
Definition len (s : string) : Z := Z.of_nat (String.length s).

(** [s.indexOf(pat)]: the first index at which [pat] occurs, or [-1]. *)
Fixpoint indexOf_from (i : Z) (s pat : string) : Z :=
  if String.prefix pat s then i
  else match s with
       | EmptyString => (-1)%Z
       | String _ s' => indexOf_from (i + 1)%Z s' pat
       end.

Definition indexOf (s pat : string) : Z := indexOf_from 0%Z s pat.

(** [s.substr(start, length)]; [None] is an omitted [length]. A negative
    [start] counts from the end, the length is clamped to what is left. *)
Definition substr (s : string) (start : Z) (length : option Z) : string :=
  let size := len s in
  let from := if (start <? 0)%Z then Z.max (size + start) 0 else Z.min start size in
  let span := match length with
              | None => (size - from)%Z
              | Some l => Z.min (Z.max l 0) (size - from)
              end in
  substring (Z.to_nat from) (Z.to_nat span) s.

(** [s.split(sep)] for a separator of one code unit: never empty. *)
Fixpoint split (sep : ascii) (s : string) : list string :=
  match s with
  | EmptyString => [EmptyString]
  | String c s' =>
      if Ascii.eqb c sep then EmptyString :: split sep s'
      else match split sep s' with
           | l :: ls => String c l :: ls
           | [] => [String c EmptyString]
           end
  end.

(** [a.join(sep)] *)
Definition join (sep : string) (a : list string) : string := String.concat sep a.

(** Truthiness of a string: [!!s]. *)
Definition truthy (s : string) : bool := negb (String.eqb s EmptyString).

(** [s.replace(/(\r\n|\n|\r)/gm, "")]: every CR and LF goes. *)
Fixpoint strip_eol (s : string) : string :=
  match s with
  | EmptyString => EmptyString
  | String c s' =>
      if Ascii.eqb c CR || Ascii.eqb c LF then strip_eol s'
      else String c (strip_eol s')
  end.

End JS.

(** ** Data model: namespace [SQFLint] and the raw interfaces *)

(** A [number] field of [Position]. The compiler does not check for
    [undefined], and arithmetic on [undefined] gives [NaN]. *)
Inductive number : Type :=
| Num (z : Z)
| NaN
| undefined.

(** [x - 1] *)
Definition minus1 (x : number) : number :=
  match x with
  | Num z => Num (z - 1)
  | NaN | undefined => NaN
  end.

(** [a[i]] on a [number[]] *)
Definition at_index (a : list Z) (i : nat) : number :=
  match a !! i with
  | Some z => Num z
  | None => undefined
  end.

Module SQFLint.

(** vscode compatible position *)
Record Position : Type := { line : number; character : number }.

(** vscode compatible range *)
Record Range : Type := { start : Position; end_ : Position }.

(** Base message; [Error] and [Warning] extend it without adding a field. *)
Record Message : Type := { message : option string; range : option Range }.
Definition Error : Type := Message.
Definition Warning : Type := Message.

(** Contains info about variable used in document. *)
Record VariableInfo : Type := {
  name : option string;
  ident : option string;
  comment : option string;
  definitions : list Range;
  usage : list Range
}.

(** Contains info about parse result. *)
Record ParseInfo : Type := {
  errors : list Error;
  warnings : list Warning;
  variables : list VariableInfo
}.

(** [new SQFLint.ParseInfo()] *)
Definition new_ParseInfo : ParseInfo :=
  {| errors := []; warnings := []; variables := [] |}.

(** [isLocal()]: [this.name.charAt(0) == '_']. [None] is the [TypeError]
    of reading [charAt] of an undefined name. *)
Definition isLocal (v : VariableInfo) : option bool :=
  match name v with
  | Some n => Some (String.eqb (substring 0 1 n) "_")
  | None => None
  end.

End SQFLint.

(** Raw position received from sqflint CLI. *)
Module RawMessagePosition.
Record t : Type := { line : list Z; column : list Z }.
End RawMessagePosition.

(** Raw message received from sqflint CLI. It extends the raw position; a
    decoded record may lack any of its fields. *)
Module RawMessage.
Record t : Type := {
  line : option (list Z);
  column : option (list Z);
  type : option string;
  error : option string;
  message : option string;
  variable : option string;
  comment : option string;
  usage : option (list RawMessagePosition.t);
  definitions : option (list RawMessagePosition.t)
}.
End RawMessage.

(** ** Position Mapper and Comment Normalizer *)

(** Converts raw position to result position. *)
Definition parsePosition (position : RawMessagePosition.t) : SQFLint.Range :=
  {| SQFLint.start :=
       {| SQFLint.line := minus1 (at_index (RawMessagePosition.line position) 0);
          SQFLint.character := minus1 (at_index (RawMessagePosition.column position) 0) |};
     SQFLint.end_ :=
       {| SQFLint.line := minus1 (at_index (RawMessagePosition.line position) 1);
          SQFLint.character := at_index (RawMessagePosition.column position) 1 |} |}.

(** The body of the loop over [clines]: trim, drop one leading star. *)
Definition parseComment_line (cl : string) : string :=
  let cline := JS.trim cl in
  if (JS.indexOf cline "*" =? 0)%Z then JS.trim (JS.substr cline 1 None) else cline.

(** Removes comment specific characters and trims the comment. The two
    tests are consecutive [if]s: a line comment whose text opens a block
    comment passes through both. *)
Definition parseComment (comment : option string) : option string :=
  match comment with
  | Some c =>
      if JS.truthy c then
        let comment := JS.trim c in
        let comment :=
          if (JS.indexOf comment "//" =? 0)%Z
          then JS.trim (JS.substr comment 2 None)
          else comment in
        let comment :=
          if (JS.indexOf comment "/*" =? 0)%Z
          then
            let clines :=
              JS.split JS.LF (JS.trim (JS.substr comment 2 (Some (JS.len comment - 4)%Z))) in
            let clines := map parseComment_line clines in
            JS.trim (JS.join (String JS.CR (String JS.LF "")) (filter (fun i => Is_true (JS.truthy i)) clines))
          else comment in
        Some comment
      else Some c
  | None => None
  end.

(** ** Stream Decoder: the handler of the child's [stdout] data *)

(** What [<RawMessage>JSON.parse(line)] does with a line: it raises
    ([SyntaxError]), or returns a value. [Value None] is the value [null],
    on which the first property read raises [TypeError]; a value that is
    not an object has none of the properties read here and is the record
    with every field absent. *)
Inductive Parsed : Type :=
| Throws
| Value (message : option RawMessage.t).

(** [a || b] on optional strings: [a] when it is truthy, else [b]. *)
Definition or_else (a b : option string) : option string :=
  match a with
  | Some s => if JS.truthy s then a else b
  | None => b
  end.

(** [message.type == lit] *)
Definition type_is (message : RawMessage.t) (lit : string) : bool :=
  match RawMessage.type message with
  | Some t => String.eqb t lit
  | None => false
  end.

(** The elements visited by [for (let i in a) ... a[i]]: those of the
    array in index order, none when [a] is [undefined]. *)
Definition for_in {A : Type} (a : option (list A)) : list A :=
  match a with
  | Some l => l
  | None => []
  end.

(** Preload position if present: [message.line && message.column]; an
    array, even an empty one, is truthy. *)
Definition preload_position (message : RawMessage.t) : option SQFLint.Range :=
  match RawMessage.line message, RawMessage.column message with
  | Some l, Some c =>
      Some (parsePosition {| RawMessagePosition.line := l; RawMessagePosition.column := c |})
  | _, _ => None
  end.

(** [new SQFLint.Error(message.error || message.message, position)], and
    the same for [Warning]. *)
Definition new_Message (message : RawMessage.t) : SQFLint.Message :=
  {| SQFLint.message := or_else (RawMessage.error message) (RawMessage.message message);
     SQFLint.range := preload_position message |}.

(** Build variable info wrapper. [ident] is never assigned. *)
Definition new_VariableInfo (message : RawMessage.t) : SQFLint.VariableInfo :=
  {| SQFLint.name := RawMessage.variable message;
     SQFLint.ident := None;
     SQFLint.comment := parseComment (RawMessage.comment message);
     SQFLint.definitions := map parsePosition (for_in (RawMessage.definitions message));
     SQFLint.usage := map parsePosition (for_in (RawMessage.usage message)) |}.

(** Create different wrappers based on type. *)
Definition classify (message : RawMessage.t) (info : SQFLint.ParseInfo) : SQFLint.ParseInfo :=
  if type_is message "error" then
    {| SQFLint.errors := SQFLint.errors info ++ [new_Message message];
       SQFLint.warnings := SQFLint.warnings info;
       SQFLint.variables := SQFLint.variables info |}
  else if type_is message "warning" then
    {| SQFLint.errors := SQFLint.errors info;
       SQFLint.warnings := SQFLint.warnings info ++ [new_Message message];
       SQFLint.variables := SQFLint.variables info |}
  else if type_is message "variable" then
    {| SQFLint.errors := SQFLint.errors info;
       SQFLint.warnings := SQFLint.warnings info;
       SQFLint.variables := SQFLint.variables info ++ [new_VariableInfo message] |}
  else info.

(** The state a data handler works on: the run's [ParseInfo] and the
    lines written with [console.error]. *)
Record Decoder : Type := { info : SQFLint.ParseInfo; console : list string }.

Section StreamDecoder.

Variable JSON_parse : string -> Parsed.

(** One turn of the loop over [lines]: the body of the [try], and the
    [catch] that logs the line. *)
Definition processLine (d : Decoder) (line : string) : Decoder :=
  if (JS.len (JS.strip_eol line) =? 0)%Z then d
  else
    match JSON_parse line with
    | Value (Some message) =>
        {| info := classify message (info d); console := console d |}
    | Value None | Throws =>
        {| info := info d;
           console := console d ++ ["Failed to parse response: >" ++ line ++ "<"] |}
    end.

(** [child.stdout.on('data', data => ...)]. The chunk is a [Buffer], which
    is truthy, so the guard [!data && ...] never returns early; [data] is
    the text of the chunk. *)
Definition onData (d : Decoder) (data : string) : Decoder :=
  if negb true && (JS.len (JS.strip_eol data) =? 0)%Z then d
  else fold_left processLine (JS.split JS.LF data) d.

End StreamDecoder.

(** ** Debounced Scheduler and Process Runner *)

(** What a promise is rejected with: nothing ([this.top.reject()]), the
    launch-failure text, or the message of the child's [error] event. *)
Inductive Reason : Type :=
| NoPayload
| LaunchFailure (text : string)
| ChildFault (msg : string).

(** A promise settles once. It is fulfilled with the [ParseInfo] object of
    a run, held by reference: [Fulfilled k] is the object of child [k]. *)
Inductive Promise : Type :=
| Pending
| Fulfilled (k : nat)
| Rejected (r : Reason).

(** The linting waiting to be done. [success] and [reject] are the two
    resolving functions of one promise; [promise] is that promise. *)
Record Task : Type := { promise : nat; contents : string }.

Inductive StdinOp : Type :=
| StdinWrite (contents : string)
| StdinEnd.

(** A spawned child with what the closures of [process] hold. *)
Record Child : Type := {
  task : Task;
  result : SQFLint.ParseInfo;
  stdin : list StdinOp;
  killed : bool;
  closed : bool
}.

(** What the platform answers to [child.stdin.write(contents)] and
    [child.stdin.end()]. *)
Inductive Delivery : Type :=
| Delivered
| WriteThrows (ex : string)
| EndThrows (ex : string).

(** What [Java.spawn] returns: a falsy value or a child. *)
Inductive Spawn : Type :=
| NoChild
| Spawned (d : Delivery).

Record State : Type := {
  top : option Task;
  timeout : option nat;
  timers : list nat;
  next_timer : nat;
  promises : list Promise;
  children : list Child;
  log : list string;
  processed : list Task
}.

(** A fresh [SQFLint] instance in a fresh event loop. [timers] are the
    armed timers, [log] the lines of [console.error], and [processed] the
    history of the tasks handed to [process]. *)
Definition init : State :=
  {| top := None; timeout := None; timers := []; next_timer := 0;
     promises := []; children := []; log := []; processed := [] |}.

Definition with_top (x : option Task) (s : State) : State :=
  {| top := x; timeout := timeout s; timers := timers s; next_timer := next_timer s;
     promises := promises s; children := children s; log := log s;
     processed := processed s |}.

Definition with_timeout (x : option nat) (s : State) : State :=
  {| top := top s; timeout := x; timers := timers s; next_timer := next_timer s;
     promises := promises s; children := children s; log := log s;
     processed := processed s |}.

Definition with_timers (x : list nat) (s : State) : State :=
  {| top := top s; timeout := timeout s; timers := x; next_timer := next_timer s;
     promises := promises s; children := children s; log := log s;
     processed := processed s |}.

Definition with_next_timer (x : nat) (s : State) : State :=
  {| top := top s; timeout := timeout s; timers := timers s; next_timer := x;
     promises := promises s; children := children s; log := log s;
     processed := processed s |}.

Definition with_promises (x : list Promise) (s : State) : State :=
  {| top := top s; timeout := timeout s; timers := timers s; next_timer := next_timer s;
     promises := x; children := children s; log := log s;
     processed := processed s |}.

Definition with_children (x : list Child) (s : State) : State :=
  {| top := top s; timeout := timeout s; timers := timers s; next_timer := next_timer s;
     promises := promises s; children := x; log := log s;
     processed := processed s |}.

Definition with_log (x : list string) (s : State) : State :=
  {| top := top s; timeout := timeout s; timers := timers s; next_timer := next_timer s;
     promises := promises s; children := children s; log := x;
     processed := processed s |}.

Definition with_processed (x : list Task) (s : State) : State :=
  {| top := top s; timeout := timeout s; timers := timers s; next_timer := next_timer s;
     promises := promises s; children := children s; log := log s;
     processed := x |}.

(** [console.error(line)] *)
Definition console_error (line : string) (s : State) : State :=
  with_log (log s ++ [line]) s.

(** Calling a resolving function of promise [p]: it settles [p] when [p]
    is pending and does nothing otherwise. *)
Definition settle (p : nat) (v : Promise) (s : State) : State :=
  match promises s !! p with
  | Some Pending => with_promises (<[p := v]> (promises s)) s
  | _ => s
  end.

(** [clearTimeout(t)] *)
Definition clearTimeout (t : nat) (s : State) : State :=
  with_timers (filter (fun t' => t' <> t) (timers s)) s.

(** [setTimeout(() => this.runLint(), 200)]: arms a timer, returns its handle. *)
Definition setTimeout (s : State) : State * nat :=
  (with_next_timer (S (next_timer s)) (with_timers (timers s ++ [next_timer s]) s),
   next_timer s).

(** [new Promise(...)]: a pending promise is created. *)
Definition new_Promise (s : State) : State * nat :=
  (with_promises (promises s ++ [Pending]) s, length (promises s)).

(** [parse(contents)]: queues the item and returns the promise. *)
Definition parse (contents : string) (s : State) : State * nat :=
  (* If there is any task waiting, we'll replace it *)
  let s :=
    match timeout s with
    | Some t =>
        let s := clearTimeout t s in
        match top s with
        | Some waiting => settle (promise waiting) (Rejected NoPayload) s
        | None => s
        end
    | None => s
    end in
  let '(s, p) := new_Promise s in
  (* Assign this task as lastest *)
  let s := with_top (Some {| promise := p; contents := contents |}) s in
  let '(s, t) := setTimeout s in
  (with_timeout (Some t) s, p).

(** The [try] around the writes to the child's input, and its [catch]. *)
Definition feed (contents : string) (d : Delivery) : list StdinOp * option string :=
  match d with
  | Delivered => ([StdinWrite contents; StdinEnd], None)
  | WriteThrows ex => ([], Some ex)
  | EndThrows ex => ([StdinWrite contents], Some ex)
  end.

(** [process(success, reject, contents)]: runs the sqflint task. *)
Definition process (t : Task) (sp : Spawn) (s : State) : State :=
  let s := with_processed (processed s ++ [t]) s in
  match sp with
  | Spawned d =>
      let '(written, failure) := feed (contents t) d in
      let child :=
        {| task := t; result := SQFLint.new_ParseInfo; stdin := written;
           killed := bool_decide (failure <> None); closed := false |} in
      let s := with_children (children s ++ [child]) s in
      match failure with
      | Some ex => console_error ("SQFLint: Failed to contact the sqflint. Ex: " ++ ex) s
      | None => s
      end
  | NoChild => settle (promise t) (Rejected (LaunchFailure "Failed to launch java process.")) s
  end.

(** [runLint()]: runs the lastest task assigned. Reading [this.top.success]
    with no task raises, which leaves the rest of the body undone. *)
Definition runLint (sp : Spawn) (s : State) : State :=
  let s := with_timeout None s in
  match top s with
  | Some t => with_top None (process t sp s)
  | None => s
  end.

(** What the event loop delivers to the instance. *)
Inductive Event : Type :=
| Call (contents : string)
| Fire (t : nat) (sp : Spawn)
| Data (k : nat) (data : string)
| Fault (k : nat) (msg : string)
| Close (k : nat) (code : option Z).

(** [code != 0]: [None] is the [null] code of a child ended by a signal. *)
Definition nonzero (code : option Z) : bool :=
  match code with
  | Some z => negb (z =? 0)%Z
  | None => true
  end.

Section Client.

Variable JSON_parse : string -> Parsed.

(** The [data] handler of child [k]. *)
Definition on_data (k : nat) (c : Child) (data : string) (s : State) : State :=
  let d := onData JSON_parse {| info := result c; console := log s |} data in
  with_log (console d)
    (with_children
       (<[k := {| task := task c; result := info d; stdin := stdin c;
                  killed := killed c; closed := closed c |}]> (children s)) s).

(** The [error] handler of a child. *)
Definition on_error (c : Child) (msg : string) (s : State) : State :=
  settle (promise (task c)) (Rejected (ChildFault msg))
    (console_error "SQFLint: Failed to call sqflint. Do you have java installed?" s).

(** The [close] handler of child [k]; it is the child's last event. *)
Definition on_close (k : nat) (c : Child) (code : option Z) (s : State) : State :=
  let s :=
    if nonzero code
    then console_error "SQFLint: Failed to run sqflint. Do you have java installed?" s
    else s in
  let s := settle (promise (task c)) (Fulfilled k) s in
  with_children
    (<[k := {| task := task c; result := result c; stdin := stdin c;
               killed := killed c; closed := true |}]> (children s)) s.

(** One event. [None]: the event cannot happen in this state (a timer
    that is not armed, a child that does not exist or has closed). *)
Definition step (s : State) (e : Event) : option State :=
  match e with
  | Call contents => Some (fst (parse contents s))
  | Fire t sp =>
      if bool_decide (t ∈ timers s)
      then Some (runLint sp (clearTimeout t s))
      else None
  | Data k data =>
      match children s !! k with
      | Some c => if closed c then None else Some (on_data k c data s)
      | None => None
      end
  | Fault k msg =>
      match children s !! k with
      | Some c => if closed c then None else Some (on_error c msg s)
      | None => None
      end
  | Close k code =>
      match children s !! k with
      | Some c => if closed c then None else Some (on_close k c code s)
      | None => None
      end
  end.

(** A sequence of events. *)
Fixpoint run (s : State) (es : list Event) : option State :=
  match es with
  | [] => Some s
  | e :: es =>
      match step s e with
      | Some s' => run s' es
      | None => None
      end
  end.

End Client.

(** The state of promise [p]. *)
Definition promise_state (s : State) (p : nat) : option Promise := promises s !! p.

(** The value a fulfilled promise gives its caller: the [ParseInfo] object
    of the run, read through the reference. *)
Definition fulfilled_with (s : State) (p : nat) : option SQFLint.ParseInfo :=
  match promises s !! p with
  | Some (Fulfilled k) => result <$> children s !! k
  | _ => None
  end.

(** ** A reference decoder for the analyzer's records

    [JSON.parse] belongs to the runtime; the definitions above take it as a
    parameter. The decoder below is an instance to run them on concrete
    lines.

    [parse] follows the JSON grammar on texts with code units below 256:
    it refuses a text exactly when [JSON.parse] raises on it. A number
    literal is kept as an integer when it has neither fraction nor
    exponent and lies in the range in which a JavaScript number is exact
    (below [2^53] in absolute value); a string is kept when its escapes
    stay below 256. A literal that is valid but cannot be kept is marked
    ([None]).

    [decode_line] views the value through the [RawMessage] interface, as
    the cast does. It has an answer where the typed embedding has one: the
    text is refused, or its value is not an object, or every member that
    the interface names is absent, [null], or of the declared type and
    kept. Elsewhere (a member of another type, or a marked literal in
    one) the source still runs, on values that the records of the
    embedding cannot hold, and [decode_line] gives no answer.

    [decode] is the total function that the definitions take; where
    [decode_line] gives no answer it is completed by [Throws], which is
    not what the source does there. The concrete lines of this development
    all have an answer ([sample_lines_decoded] below). *)

Module JSON.

#[local] Set Warnings "-register-all".

Inductive value : Type :=
| Null
| Boolean (b : bool)
| Number (z : option Z)
| Str (s : option string)
| Array (elements : list value)
| Object (members : list (option string * value)).

Inductive token : Type :=
| LBrace | RBrace | LBracket | RBracket | Colon | Comma
| TString (s : option string)
| TNumber (z : option Z)
| TTrue | TFalse | TNull.

Definition code (c : ascii) : nat := nat_of_ascii c.

Definition is_space (c : ascii) : bool :=
  let n := code c in
  Nat.eqb n 32 || Nat.eqb n 9 || Nat.eqb n 10 || Nat.eqb n 13.

Definition digit (c : ascii) : option Z :=
  let n := code c in
  if Nat.leb 48 n && Nat.leb n 57 then Some (Z.of_nat (n - 48)) else None.

Definition is_digit (c : ascii) : bool :=
  match digit c with
  | Some _ => true
  | None => false
  end.

Definition hex (c : ascii) : option nat :=
  let n := code c in
  if Nat.leb 48 n && Nat.leb n 57 then Some (n - 48)
  else if Nat.leb 65 n && Nat.leb n 70 then Some (n - 55)
  else if Nat.leb 97 n && Nat.leb n 102 then Some (n - 87)
  else None.

(** The character an escape letter stands for. *)
Definition escape (e : ascii) : option ascii :=
  let n := code e in
  if Nat.eqb n 34 || Nat.eqb n 92 || Nat.eqb n 47 then Some e
  else if Nat.eqb n 98 then Some (ascii_of_nat 8)
  else if Nat.eqb n 102 then Some (ascii_of_nat 12)
  else if Nat.eqb n 110 then Some (ascii_of_nat 10)
  else if Nat.eqb n 114 then Some (ascii_of_nat 13)
  else if Nat.eqb n 116 then Some (ascii_of_nat 9)
  else None.

(** The text of a string after its opening quote, and what follows the
    closing quote. The text is marked when an escape names a code unit
    of 256 or more. *)
Fixpoint string_body (s : string) : option (option string * string) :=
  match s with
  | EmptyString => None
  | String c s' =>
      if Nat.eqb (code c) 34 then Some (Some EmptyString, s')
      else if Nat.eqb (code c) 92 then
        match s' with
        | String e s'' =>
            if Nat.eqb (code e) 117 then
              match s'' with
              | String h1 (String h2 (String h3 (String h4 r))) =>
                  match hex h1, hex h2, hex h3, hex h4, string_body r with
                  | Some a, Some b, Some x, Some y, Some (t, rest) =>
                      Some (if Nat.eqb a 0 && Nat.eqb b 0
                            then String (ascii_of_nat (16 * x + y)) <$> t
                            else None,
                            rest)
                  | _, _, _, _, _ => None
                  end
              | _ => None
              end
            else
              match escape e, string_body s'' with
              | Some x, Some (t, rest) => Some (String x <$> t, rest)
              | _, _ => None
              end
        | EmptyString => None
        end
      else if Nat.ltb (code c) 32 then None
      else
        match string_body s' with
        | Some (t, rest) => Some (String c <$> t, rest)
        | None => None
        end
  end.

(** The digits at the head of a text, as a number, and what follows. *)
Fixpoint digits (acc : Z) (s : string) : Z * string :=
  match s with
  | String c s' =>
      match digit c with
      | Some d => digits (10 * acc + d)%Z s'
      | None => (acc, s)
      end
  | EmptyString => (acc, s)
  end.

(** What follows one digit or more. *)
Definition after_digits (s : string) : option string :=
  match s with
  | String c s' => if is_digit c then Some (snd (digits 0 s')) else None
  | EmptyString => None
  end.

(** An optional fraction: whether there is one, and what follows. *)
Definition fraction (s : string) : option (bool * string) :=
  match s with
  | String c s' =>
      if Nat.eqb (code c) 46 then pair true <$> after_digits s' else Some (false, s)
  | EmptyString => Some (false, s)
  end.

(** An optional exponent: whether there is one, and what follows. *)
Definition exponent (s : string) : option (bool * string) :=
  match s with
  | String c s' =>
      if Nat.eqb (code c) 101 || Nat.eqb (code c) 69 then
        pair true <$>
          match s' with
          | String g s'' =>
              if Nat.eqb (code g) 43 || Nat.eqb (code g) 45
              then after_digits s'' else after_digits s'
          | EmptyString => None
          end
      else Some (false, s)
  | EmptyString => Some (false, s)
  end.

(** A number literal without its sign: an integer part with no leading
    zero, then an optional fraction and an optional exponent. *)
Definition natural (s : string) : option (option Z * string) :=
  match s with
  | String c s' =>
      match digit c with
      | Some d =>
          let '(z, rest) := if (d =? 0)%Z then (0%Z, s') else digits d s' in
          match fraction rest with
          | Some (f, rest) =>
              match exponent rest with
              | Some (e, rest) =>
                  Some (if f || e || negb (z <? 2 ^ 53)%Z then None else Some z, rest)
              | None => None
              end
          | None => None
          end
      | None => None
      end
  | EmptyString => None
  end.

Definition word (w : string) (t : token) (s : string) : option (token * string) :=
  if String.prefix w s
  then Some (t, substring (String.length w) (String.length s - String.length w) s)
  else None.

Fixpoint lex (fuel : nat) (s : string) : option (list token) :=
  match fuel with
  | O => None
  | S fuel =>
      match s with
      | EmptyString => Some []
      | String c s' =>
          let n := code c in
          let one (t : token) (rest : string) := cons t <$> lex fuel rest in
          if is_space c then lex fuel s'
          else if Nat.eqb n 123 then one LBrace s'
          else if Nat.eqb n 125 then one RBrace s'
          else if Nat.eqb n 91 then one LBracket s'
          else if Nat.eqb n 93 then one RBracket s'
          else if Nat.eqb n 58 then one Colon s'
          else if Nat.eqb n 44 then one Comma s'
          else if Nat.eqb n 34 then
            match string_body s' with
            | Some (t, rest) => one (TString t) rest
            | None => None
            end
          else if Nat.eqb n 45 then
            match natural s' with
            | Some (z, rest) => one (TNumber (Z.opp <$> z)) rest
            | None => None
            end
          else if is_digit c then
            match natural s with
            | Some (z, rest) => one (TNumber z) rest
            | None => None
            end
          else
            match word "true" TTrue s, word "false" TFalse s, word "null" TNull s with
            | Some (t, rest), _, _ | _, Some (t, rest), _ | _, _, Some (t, rest) => one t rest
            | None, None, None => None
            end
      end
  end.

Fixpoint parse_value (fuel : nat) (ts : list token) : option (value * list token) :=
  match fuel with
  | O => None
  | S fuel =>
      match ts with
      | TNull :: r => Some (Null, r)
      | TTrue :: r => Some (Boolean true, r)
      | TFalse :: r => Some (Boolean false, r)
      | TNumber z :: r => Some (Number z, r)
      | TString s :: r => Some (Str s, r)
      | LBracket :: RBracket :: r => Some (Array [], r)
      | LBracket :: r =>
          match parse_elements fuel r with
          | Some (vs, r') => Some (Array vs, r')
          | None => None
          end
      | LBrace :: RBrace :: r => Some (Object [], r)
      | LBrace :: r =>
          match parse_members fuel r with
          | Some (ms, r') => Some (Object ms, r')
          | None => None
          end
      | _ => None
      end
  end
with parse_elements (fuel : nat) (ts : list token) : option (list value * list token) :=
  match fuel with
  | O => None
  | S fuel =>
      match parse_value fuel ts with
      | Some (v, Comma :: r) =>
          match parse_elements fuel r with
          | Some (vs, r') => Some (v :: vs, r')
          | None => None
          end
      | Some (v, RBracket :: r) => Some ([v], r)
      | _ => None
      end
  end
with parse_members (fuel : nat) (ts : list token)
  : option (list (option string * value) * list token) :=
  match fuel with
  | O => None
  | S fuel =>
      match ts with
      | TString k :: Colon :: r =>
          match parse_value fuel r with
          | Some (v, Comma :: r') =>
              match parse_members fuel r' with
              | Some (ms, r'') => Some ((k, v) :: ms, r'')
              | None => None
              end
          | Some (v, RBrace :: r') => Some ([(k, v)], r')
          | _ => None
          end
      | _ => None
      end
  end.

(** A whole text: one value and nothing after it. *)
Definition parse (s : string) : option value :=
  match lex (S (String.length s)) s with
  | Some ts =>
      match parse_value (2 * length ts + 2) ts with
      | Some (v, []) => Some v
      | _ => None
      end
  | None => None
  end.

(** The member [k] of an object: the last one of that name. A marked
    name is none of the names asked for, which are all kept. *)
Fixpoint get (k : string) (ms : list (option string * value)) : option value :=
  match ms with
  | [] => None
  | (k', v) :: ms =>
      match get k ms with
      | Some v' => Some v'
      | None =>
          match k' with
          | Some n => if String.eqb n k then Some v else None
          | None => None
          end
      end
  end.

(** Views of a member at the types of the interfaces. The outer [option]
    is [None] when the member has another type or is marked; a member
    that is absent or [null] is viewed as absent. *)
Definition as_string (v : option value) : option (option string) :=
  match v with
  | None | Some Null => Some None
  | Some (Str (Some s)) => Some (Some s)
  | Some _ => None
  end.

Fixpoint as_integers (vs : list value) : option (list Z) :=
  match vs with
  | [] => Some []
  | Number (Some z) :: vs => cons z <$> as_integers vs
  | _ :: _ => None
  end.

Definition as_numbers (v : option value) : option (option (list Z)) :=
  match v with
  | None | Some Null => Some None
  | Some (Array vs) => Some <$> as_integers vs
  | Some _ => None
  end.

Definition as_position (v : value) : option RawMessagePosition.t :=
  match v with
  | Object ms =>
      match as_numbers (get "line" ms), as_numbers (get "column" ms) with
      | Some (Some l), Some (Some c) =>
          Some {| RawMessagePosition.line := l; RawMessagePosition.column := c |}
      | _, _ => None
      end
  | _ => None
  end.

Fixpoint as_position_list (vs : list value) : option (list RawMessagePosition.t) :=
  match vs with
  | [] => Some []
  | v :: vs =>
      match as_position v, as_position_list vs with
      | Some p, Some ps => Some (p :: ps)
      | _, _ => None
      end
  end.

Definition as_positions (v : option value) : option (option (list RawMessagePosition.t)) :=
  match v with
  | None | Some Null => Some None
  | Some (Array vs) => Some <$> as_position_list vs
  | Some _ => None
  end.

Definition absent : RawMessage.t :=
  {| RawMessage.line := None; RawMessage.column := None; RawMessage.type := None;
     RawMessage.error := None; RawMessage.message := None;
     RawMessage.variable := None; RawMessage.comment := None;
     RawMessage.usage := None; RawMessage.definitions := None |}.

Definition as_RawMessage (ms : list (option string * value)) : option RawMessage.t :=
  match as_numbers (get "line" ms), as_numbers (get "column" ms),
        as_string (get "type" ms), as_string (get "error" ms),
        as_string (get "message" ms), as_string (get "variable" ms),
        as_string (get "comment" ms),
        as_positions (get "usage" ms), as_positions (get "definitions" ms) with
  | Some l, Some c, Some t, Some e, Some m, Some v, Some cm, Some u, Some d =>
      Some {| RawMessage.line := l; RawMessage.column := c; RawMessage.type := t;
              RawMessage.error := e; RawMessage.message := m;
              RawMessage.variable := v; RawMessage.comment := cm;
              RawMessage.usage := u; RawMessage.definitions := d |}
  | _, _, _, _, _, _, _, _, _ => None
  end.

(** [JSON.parse] followed by the cast, where the typed embedding has an
    answer. *)
Definition decode_line (line : string) : option Parsed :=
  match parse line with
  | None => Some Throws
  | Some Null => Some (Value None)
  | Some (Object ms) => (fun m => Value (Some m)) <$> as_RawMessage ms
  | Some _ => Some (Value (Some absent))
  end.

(** The instance of [JSON.parse] followed by the cast. *)
Definition decode (line : string) : Parsed :=
  match decode_line line with
  | Some r => r
  | None => Throws
  end.

(** A string literal of a JSON text: [s] between quotes. *)
Definition quoted (s : string) : string :=
  String (ascii_of_nat 34) (s ++ String (ascii_of_nat 34) EmptyString).

End JSON.

(** ** Notions the properties are stated with *)

(** Comparison of [number]s: nothing compares with [NaN] or [undefined]. *)
Definition number_ltb (a b : number) : bool :=
  match a, b with
  | Num x, Num y => (x <? y)%Z
  | _, _ => false
  end.

Definition number_leb (a b : number) : bool :=
  match a, b with
  | Num x, Num y => (x <=? y)%Z
  | _, _ => false
  end.

Definition number_eqb (a b : number) : bool :=
  match a, b with
  | Num x, Num y => (x =? y)%Z
  | _, _ => false
  end.

(** [p <= q] in line-then-character order. *)
Definition Position_leb (p q : SQFLint.Position) : bool :=
  number_ltb (SQFLint.line p) (SQFLint.line q)
  || (number_eqb (SQFLint.line p) (SQFLint.line q)
      && number_leb (SQFLint.character p) (SQFLint.character q)).

(** A range whose start is not after its end. *)
Definition ordered (r : SQFLint.Range) : bool :=
  Position_leb (SQFLint.start r) (SQFLint.end_ r).

(** A raw position with two lines and two columns. *)
Definition raw (L1 L2 C1 C2 : Z) : RawMessagePosition.t :=
  {| RawMessagePosition.line := [L1; L2]; RawMessagePosition.column := [C1; C2] |}.

(** A string begins with a comment marker. *)
Definition has_marker (s : string) : bool :=
  (JS.indexOf s "//" =? 0)%Z || (JS.indexOf s "/*" =? 0)%Z.

(** A line the decoder does not skip. *)
Definition nonblank (line : string) : Prop :=
  (JS.len (JS.strip_eol line) =? 0)%Z = false.

Section Lines.

Variable JSON_parse : string -> Parsed.

(** [line] decodes to the record [m]. *)
Definition decodes (line : string) (m : RawMessage.t) : Prop :=
  nonblank line /\ JSON_parse line = Value (Some m).

(** What the [catch] logs for [line]: the line, when its decoding raised. *)
Definition complaint (line : string) : list string :=
  match JSON_parse line with
  | Value (Some _) => []
  | Value None | Throws => ["Failed to parse response: >" ++ line ++ "<"]
  end.

(** A line that yields no record of a type the decoder knows: it is not
    valid JSON, or it is the value [null], which has no property to read,
    or its [type] is none of the three. The source checks nothing else: a
    record of a known type is taken as it is, whatever its other fields
    hold. *)
Definition malformed (line : string) : Prop :=
  nonblank line
  /\ match JSON_parse line with
     | Throws | Value None => True
     | Value (Some m) =>
         type_is m "error" = false /\ type_is m "warning" = false
         /\ type_is m "variable" = false
     end.


(** The states an instance can be in. *)
Definition reachable (s : State) : Prop :=
  exists es, run JSON_parse init es = Some s.

End Lines.

(** The events of a child, as opposed to calls and timers. *)
Definition child_event (e : Event) : Prop :=
  match e with
  | Data _ _ | Fault _ _ | Close _ _ => True
  | Call _ | Fire _ _ => False
  end.

(** A string that does not begin with white space. *)
Definition head_ok (s : string) : Prop :=
  match s with
  | String c _ => JS.is_ws c = false
  | EmptyString => True
  end.

(** The [ParseInfo] that starts as [i] after the chunks [chunks]. *)
Definition accumulate (JSON_parse : string -> Parsed)
    (i : SQFLint.ParseInfo) (chunks : list string) : SQFLint.ParseInfo :=
  info (fold_left (onData JSON_parse) chunks {| info := i; console := [] |}).

(** The chunks that the events [es] deliver to child [k], in order. *)
Definition chunks_of (k : nat) (es : list Event) : list string :=
  flat_map (fun e => match e with
                     | Data k' data => if decide (k' = k) then [data] else []
                     | _ => []
                     end) es.

(** An event that is neither the [error] nor the [close] of child [k]. *)
Definition quiet (k : nat) (e : Event) : Prop :=
  match e with
  | Fault k' _ | Close k' _ => k' <> k
  | _ => True
  end.

(** The child that [process] creates for task [t]. *)
Definition spawned (t : Task) (d : Delivery) : Child :=
  {| task := t; result := SQFLint.new_ParseInfo; stdin := fst (feed (contents t) d);
     killed := bool_decide (snd (feed (contents t) d) <> None); closed := false |}.

(** The lowest promise that a task not yet handed to [process] can have. *)
Definition floor (s : State) : nat :=
  match top s with
  | Some t => promise t
  | None => length (promises s)
  end.

(** What holds of every state of an instance: the waiting task, when there
    is one, holds the newest promise, which is pending, and its timer is
    the only armed timer; the tasks handed to [process] hold older
    promises, and no two children hold the same promise. *)
Definition inv (s : State) : Prop :=
  Forall (fun c => promise (task c) < floor s) (children s)
  /\ Forall (fun t => promise t < floor s) (processed s)
  /\ NoDup (promise <$> (task <$> children s))
  /\ match top s with
     | Some t =>
         S (promise t) = length (promises s)
         /\ promises s !! promise t = Some Pending
         /\ exists h, timeout s = Some h /\ timers s = [h]
     | None => timeout s = None /\ timers s = []
     end.

(** Promise [p] is older than the waiting task and no child holds it. *)
Definition childless (p : nat) (s : State) : Prop :=
  p < floor s /\ Forall (fun c => promise (task c) <> p) (children s).

(** Promise [p] is older than the waiting task and its task was never
    handed to [process]. *)
Definition unprocessed (p : nat) (s : State) : Prop :=
  p < floor s /\ Forall (fun t => promise t <> p) (processed s).

(** Timer [t] was armed once and is armed no more. *)
Definition cancelled (t : nat) (s : State) : Prop :=
  t < next_timer s /\ t ∉ timers s.

(** Child [k] runs task [tk] with the result [r] so far: it is open and
    its promise is pending. *)
Definition running (k : nat) (tk : Task) (r : SQFLint.ParseInfo) (s : State) : Prop :=
  exists c,
    children s !! k = Some c /\ task c = tk /\ closed c = false /\ result c = r
    /\ promises s !! promise tk = Some Pending.

(** ** Sample lines and states *)

Module Sample.

Definition q : string -> string := JSON.quoted.
Definition nl : string := String JS.LF EmptyString.

(** [{"type":"error","error":"bad op","line":[3,3],"column":[5,8]}] *)
Definition error_line : string :=
  "{" ++ q "type" ++ ":" ++ q "error" ++ "," ++ q "error" ++ ":" ++ q "bad op" ++ ","
  ++ q "line" ++ ":[3,3]," ++ q "column" ++ ":[5,8]}".

(** [{"type":"error","message":"missing ;"}] *)
Definition plain_error_line : string :=
  "{" ++ q "type" ++ ":" ++ q "error" ++ "," ++ q "message" ++ ":" ++ q "missing ;" ++ "}".

(** [{"type":"error",] a record cut short *)
Definition cut_line : string := "{" ++ q "type" ++ ":" ++ q "error" ++ ",".

(** [{"type":"warning","error":"unused","line":[1,1],"column":[1,3]}] *)
Definition warning_line : string :=
  "{" ++ q "type" ++ ":" ++ q "warning" ++ "," ++ q "error" ++ ":" ++ q "unused" ++ ","
  ++ q "line" ++ ":[1,1]," ++ q "column" ++ ":[1,3]}".

(** [{"type":"error","error":"","message":"fallback"}] *)
Definition empty_error_line : string :=
  "{" ++ q "type" ++ ":" ++ q "error" ++ "," ++ q "error" ++ ":" ++ q "" ++ ","
  ++ q "message" ++ ":" ++ q "fallback" ++ "}".

(** [{"type":"variable","variable":"_x","comment":"// note",
      "usage":[{"line":[1,1],"column":[1,2]}]}]: no [definitions] *)
Definition variable_line : string :=
  "{" ++ q "type" ++ ":" ++ q "variable" ++ "," ++ q "variable" ++ ":" ++ q "_x" ++ ","
  ++ q "comment" ++ ":" ++ q "// note" ++ ","
  ++ q "usage" ++ ":[{" ++ q "line" ++ ":[1,1]," ++ q "column" ++ ":[1,2]}]}".

(** The chunk of the scenario of the specification: an error line and a
    variable line with both sequences. *)
Definition scenario_chunk : string :=
  error_line ++ nl
  ++ "{" ++ q "type" ++ ":" ++ q "variable" ++ "," ++ q "variable" ++ ":" ++ q "_x" ++ ","
  ++ q "comment" ++ ":" ++ q "// note" ++ ","
  ++ q "definitions" ++ ":[{" ++ q "line" ++ ":[1,1]," ++ q "column" ++ ":[1,2]}],"
  ++ q "usage" ++ ":[]}" ++ nl.

(** Two error lines with the cut line between them. *)
Definition broken_chunk : string :=
  error_line ++ nl ++ cut_line ++ nl ++ plain_error_line ++ nl.

Definition record_of (line : string) : RawMessage.t :=
  match JSON.decode line with
  | Value (Some m) => m
  | _ => JSON.absent
  end.

Definition state_after (es : list Event) : State :=
  match run JSON.decode init es with
  | Some s => s
  | None => init
  end.

(** The decoder state at the start of a run. *)
Definition fresh : Decoder := {| info := SQFLint.new_ParseInfo; console := [] |}.

(** The record of [empty_error_line]. *)
Definition empty_error_record : RawMessage.t := record_of empty_error_line.

(** A call is waiting for its timer. *)
Definition waiting : State := Eval vm_compute in state_after [Call "x = 1;"].

(** A run is in flight and nothing is waiting. *)
Definition in_flight : State :=
  Eval vm_compute in state_after [Call "x = 1;"; Fire 0 (Spawned Delivered)].

(** While a run is in flight: a call with ["a"], a chunk of the run, and
    a call with ["b"]. *)
Definition superseded : State :=
  state_after
    [Call "x = 1;"; Fire 0 (Spawned Delivered);
     Call "a"; Data 0 broken_chunk; Call "b"].

End Sample.

(** ** Further notions *)

(** The separator that [parseComment] joins the lines with. *)
Definition CRLF : string := String JS.CR (String JS.LF EmptyString).

(** A string that is not empty and has no white space at either end. *)
Definition tidy (l : string) : Prop := JS.truthy l = true /\ JS.trim l = l.

(** Every field of the range is a number. *)
Definition located (r : SQFLint.Range) : bool :=
  match SQFLint.line (SQFLint.start r), SQFLint.character (SQFLint.start r),
        SQFLint.line (SQFLint.end_ r), SQFLint.character (SQFLint.end_ r) with
  | Num _, Num _, Num _, Num _ => true
  | _, _, _, _ => false
  end.

(** The order of a raw position, on its first two lines and, when these
    are equal, its first two columns. *)
Definition raw_ordered (p : RawMessagePosition.t) : bool :=
  match RawMessagePosition.line p with
  | L1 :: L2 :: _ =>
      (L1 <? L2)%Z
      || ((L1 =? L2)%Z
          && match RawMessagePosition.column p with
             | C1 :: C2 :: _ => (C1 - 1 <=? C2)%Z
             | _ => false
             end)
  | _ => false
  end.

(** The number of entries of a [ParseInfo]. *)
Definition entries (i : SQFLint.ParseInfo) : nat :=
  length (SQFLint.errors i) + length (SQFLint.warnings i) + length (SQFLint.variables i).

(** The lines of a chunk that the decoder does not skip. *)
Definition nonblank_lines (data : string) : list string :=
  filter (fun l => (JS.len (JS.strip_eol l) =? 0)%Z = false) (JS.split JS.LF data).

(** A text without line feed: the decoder takes it as one line. *)
Definition one_line (s : string) : Prop := JS.split JS.LF s = [s].

(** Whether a text holds a line feed. *)
Fixpoint has_LF (s : string) : bool :=
  match s with
  | EmptyString => false
  | String c s' => Ascii.eqb c JS.LF || has_LF s'
  end.

(** The sequences of [b] extend those of [a]. *)
Definition grows (a b : SQFLint.ParseInfo) : Prop :=
  SQFLint.errors a `prefix_of` SQFLint.errors b
  /\ SQFLint.warnings a `prefix_of` SQFLint.warnings b
  /\ SQFLint.variables a `prefix_of` SQFLint.variables b.

(** What a child keeps through an event: its task, what was written to
    its input, whether it was killed, and what its [ParseInfo] already
    holds; a closed child stays closed. *)
Definition keeps (c c' : Child) : Prop :=
  task c' = task c /\ stdin c' = stdin c /\ killed c' = killed c
  /\ grows (result c) (result c')
  /\ (closed c = true -> closed c' = true).

(** What was written to the input of a child, against its task: the whole
    text and the end of input, or less and the child was killed. *)
Definition fed (c : Child) : Prop :=
  (stdin c = [StdinWrite (contents (task c)); StdinEnd] /\ killed c = false)
  \/ (killed c = true
      /\ (stdin c = [] \/ stdin c = [StdinWrite (contents (task c))])).

(** ** Further sample lines and states *)

Module Cases.

(** [{"type":"error","err] and [or":"bad op"}]: a record cut in two. *)
Definition first_part : string :=
  "{" ++ Sample.q "type" ++ ":" ++ Sample.q "error" ++ ","
  ++ String (ascii_of_nat 34) "err".

Definition second_part : string :=
  "or" ++ String (ascii_of_nat 34) (":" ++ Sample.q "bad op" ++ "}").

(** [{"type":"error","error":"mid","line":[3],"column":[5]}]: one line and
    one column where the analyzer writes two of each. *)
Definition short_position_line : string :=
  "{" ++ Sample.q "type" ++ ":" ++ Sample.q "error" ++ ","
  ++ Sample.q "error" ++ ":" ++ Sample.q "mid" ++ ","
  ++ Sample.q "line" ++ ":[3]," ++ Sample.q "column" ++ ":[5]}".

(** Two error lines with the line of the short position between them. *)
Definition misshapen_chunk : string :=
  Sample.error_line ++ Sample.nl ++ short_position_line ++ Sample.nl
  ++ Sample.plain_error_line ++ Sample.nl.

(** A chunk of line ends. *)
Definition line_ends : string :=
  String JS.CR (String JS.LF (String JS.LF (String JS.CR EmptyString))).

(** A run is in flight and a second call waits. *)
Definition second_waiting : State :=
  Eval vm_compute in
    Sample.state_after [Call "x = 1;"; Fire 0 (Spawned Delivered); Call "y = 2;"].

(** A run has closed with status 1 after one warning line. *)
Definition finished : State :=
  Eval vm_compute in
    Sample.state_after
      [Call "x = 1;"; Fire 0 (Spawned Delivered);
       Data 0 (Sample.warning_line ++ Sample.nl); Close 0 (Some 1%Z)].

(** The launch of a call has failed. *)
Definition not_launched : State :=
  Eval vm_compute in Sample.state_after [Call "x = 1;"; Fire 0 NoChild].

End Cases.

(** * Properties *)

Local Open Scope list_scope.

(** ** Strings *)

Module JSFacts.
Import JS.

Lemma trimStart_head_ok s : head_ok (trimStart s).
Proof.
  induction s as [|c s IH]; simpl; [exact I|].
  destruct (is_ws c) eqn:E; [exact IH|exact E].
Qed.

Lemma trimStart_fixed s : head_ok s -> trimStart s = s.
Proof. destruct s as [|c s]; simpl; [reflexivity|]. intros ->. reflexivity. Qed.

Lemma trimEnd_head_ok s : head_ok s -> head_ok (trimEnd s).
Proof.
  destruct s as [|c s]; simpl; [exact id|]. intros H.
  destruct (trimEnd s); simpl; [rewrite H; exact H|exact H].
Qed.

Lemma trimEnd_idem s : trimEnd (trimEnd s) = trimEnd s.
Proof.
  induction s as [|c s IH]; simpl; [reflexivity|].
  destruct (trimEnd s) as [|c' r] eqn:E.
  - destruct (is_ws c) eqn:W; simpl; [reflexivity|]. rewrite W. reflexivity.
  - change (trimEnd (String c (String c' r))) with
      (match trimEnd (String c' r) with
       | EmptyString => if is_ws c then EmptyString else String c EmptyString
       | r0 => String c r0
       end).
    rewrite IH. reflexivity.
Qed.

Lemma trim_idem s : trim (trim s) = trim s.
Proof.
  unfold trim.
  rewrite (trimStart_fixed (trimEnd (trimStart s))).
  - apply trimEnd_idem.
  - apply trimEnd_head_ok, trimStart_head_ok.
Qed.

Lemma indexOf_from_pos i s pat : (0 < i)%Z -> (indexOf_from i s pat <> 0)%Z.
Proof.
  revert i. induction s as [|c s IH]; intros i Hi; cbn [indexOf_from].
  - destruct (String.prefix pat EmptyString); lia.
  - destruct (String.prefix pat (String c s)); [lia|]. apply IH. lia.
Qed.

(** [s.indexOf(pat) == 0] says that [s] begins with [pat]. *)
Lemma indexOf_zero s pat : (indexOf s pat =? 0)%Z = String.prefix pat s.
Proof.
  unfold indexOf. destruct s as [|c s]; cbn [indexOf_from].
  - destruct (String.prefix pat EmptyString); reflexivity.
  - destruct (String.prefix pat (String c s)); [reflexivity|].
    apply Z.eqb_neq, indexOf_from_pos. lia.
Qed.

Lemma truthy_false s : truthy s = false -> s = EmptyString.
Proof.
  unfold truthy. intros H. apply negb_false_iff in H.
  apply String.eqb_eq in H. exact H.
Qed.

End JSFacts.

(** ** Position Mapper *)

(** C2. For every raw position record with line [[L1, L2]] and column
    [[C1, C2]], [parsePosition] returns the range from
    [(L1 - 1, C1 - 1)] to [(L2 - 1, C2)]: the end line is decremented, the
    end character is not. *)
Theorem parsePosition_maps (L1 L2 C1 C2 : Z) :
  parsePosition (raw L1 L2 C1 C2)
  = {| SQFLint.start := {| SQFLint.line := Num (L1 - 1); SQFLint.character := Num (C1 - 1) |};
       SQFLint.end_ := {| SQFLint.line := Num (L2 - 1); SQFLint.character := Num C2 |} |}.
Proof. reflexivity. Qed.

(** C9, as the spec has it, fails: a raw record whose end line precedes its
    start line is mapped, unchecked, to a range that starts after its end. *)
Lemma parsePosition_unordered : ordered (parsePosition (raw 2 1 1 1)) = false.
Proof. reflexivity. Qed.

(** C9, amended. The mapper keeps the order of the raw record: the range
    of a raw record with lines [[L1, L2]] and columns [[C1, C2]] has
    [start <= end] exactly when [L1 < L2], or [L1 = L2] and
    [C1 - 1 <= C2]. *)
Theorem parsePosition_ordered_iff (L1 L2 C1 C2 : Z) :
  ordered (parsePosition (raw L1 L2 C1 C2)) = true
  <-> (L1 < L2 \/ (L1 = L2 /\ C1 - 1 <= C2))%Z.
Proof.
  unfold ordered, Position_leb. simpl.
  rewrite orb_true_iff, andb_true_iff, Z.ltb_lt, Z.eqb_eq, Z.leb_le. lia.
Qed.

(** ** Comment Normalizer *)

(** Whatever [parseComment] returns for a non-empty comment is trimmed. *)
Lemma parseComment_trimmed c r :
  JS.truthy c = true -> parseComment (Some c) = Some r -> JS.trim r = r.
Proof.
  unfold parseComment. intros ->. intros [= <-].
  repeat match goal with
         | |- context [if ?b then _ else _] => destruct b
         end; apply JSFacts.trim_idem.
Qed.

(** C7, as the spec has it, fails: one layer of markers is removed per
    application, and the text under a line-comment marker may begin with
    another marker. *)
Lemma parseComment_not_idempotent :
  parseComment (Some "// // x") = Some "// x"
  /\ parseComment (parseComment (Some "// // x")) = Some "x"
  /\ parseComment (parseComment (Some "// // x")) <> parseComment (Some "// // x").
Proof. repeat split. discriminate. Qed.

(** C7, amended. Normalizing a normalized comment returns it unchanged
    whenever the normalized comment does not itself begin with a comment
    marker ([//] or [/*]). *)
Theorem parseComment_stable (comment : option string) :
  (forall r, parseComment comment = Some r -> has_marker r = false) ->
  parseComment (parseComment comment) = parseComment comment.
Proof.
  intros H. destruct comment as [c|]; [|reflexivity].
  destruct (JS.truthy c) eqn:T.
  - destruct (parseComment (Some c)) as [r|] eqn:E; [|reflexivity].
    pose proof (parseComment_trimmed c r T E) as Htrim.
    specialize (H r eq_refl). unfold has_marker in H.
    apply orb_false_iff in H as [H1 H2].
    unfold parseComment at 1.
    destruct (JS.truthy r); [|reflexivity].
    rewrite Htrim, H1, H2. reflexivity.
  - unfold parseComment. rewrite T. simpl. rewrite T. reflexivity.
Qed.

Lemma parseComment_stable_witness :
  parseComment (parseComment (Some "/* first */")) = parseComment (Some "/* first */").
Proof.
  apply (parseComment_stable (Some "/* first */")).
  intros r [= <-]. reflexivity.
Defined.

(** ** Stream Decoder *)

Section DecoderFacts.

Variable JSON_parse : string -> Parsed.

Abbreviation processLine := (processLine JSON_parse).
Abbreviation onData := (onData JSON_parse).
Abbreviation decodes := (decodes JSON_parse).
Abbreviation malformed := (malformed JSON_parse).

Lemma processLine_decodes d line m :
  decodes line m ->
  processLine d line = {| info := classify m (info d); console := console d |}.
Proof.
  intros [Hnb Hp]. unfold processLine, nonblank in *. rewrite Hnb, Hp. reflexivity.
Qed.

Lemma processLine_malformed d line :
  malformed line ->
  processLine d line
  = {| info := info d; console := console d ++ complaint JSON_parse line |}.
Proof.
  intros [Hnb Hp]. unfold processLine, complaint, nonblank in *. rewrite Hnb.
  destruct (JSON_parse line) as [|[m|]]; try reflexivity.
  destruct Hp as (H1 & H2 & H3). unfold classify. rewrite H1, H2, H3.
  destruct d. cbn. by rewrite app_nil_r.
Qed.

Lemma onData_lines d data :
  onData d data = fold_left processLine (JS.split JS.LF data) d.
Proof. reflexivity. Qed.

(** A record of type ["error"] adds one entry to [errors] and nothing else. *)
Lemma classify_error m i :
  type_is m "error" = true ->
  classify m i
  = {| SQFLint.errors := SQFLint.errors i ++ [new_Message m];
       SQFLint.warnings := SQFLint.warnings i;
       SQFLint.variables := SQFLint.variables i |}.
Proof. unfold classify. intros ->. reflexivity. Qed.

Lemma type_is_exclusive m a b :
  type_is m a = true -> a <> b -> type_is m b = false.
Proof.
  unfold type_is. destruct (RawMessage.type m) as [t|]; [|discriminate].
  intros Ha Hab. apply String.eqb_eq in Ha. subst t.
  apply String.eqb_neq. exact Hab.
Qed.

Lemma classify_warning m i :
  type_is m "warning" = true ->
  classify m i
  = {| SQFLint.errors := SQFLint.errors i;
       SQFLint.warnings := SQFLint.warnings i ++ [new_Message m];
       SQFLint.variables := SQFLint.variables i |}.
Proof.
  intros H. unfold classify.
  rewrite (type_is_exclusive m "warning" "error" H), H by discriminate. reflexivity.
Qed.

Lemma classify_variable m i :
  type_is m "variable" = true ->
  classify m i
  = {| SQFLint.errors := SQFLint.errors i;
       SQFLint.warnings := SQFLint.warnings i;
       SQFLint.variables := SQFLint.variables i ++ [new_VariableInfo m] |}.
Proof.
  intros H. unfold classify.
  rewrite (type_is_exclusive m "variable" "error" H),
    (type_is_exclusive m "variable" "warning" H), H by discriminate.
  reflexivity.
Qed.






(** C8, amended. The text of the diagnostic built from a record of type
    ["error"] or ["warning"] is the record's [error] field when that
    field is present and not empty; when it is absent or empty, the text
    is the [message] field. *)
Theorem diagnostic_text d line m :
  decodes line m ->
  type_is m "error" = true \/ type_is m "warning" = true ->
  exists diag,
    (type_is m "error" = true ->
     SQFLint.errors (info (processLine d line)) = SQFLint.errors (info d) ++ [diag])
    /\ (type_is m "warning" = true ->
        SQFLint.warnings (info (processLine d line))
        = SQFLint.warnings (info d) ++ [diag])
    /\ SQFLint.message diag
       = match RawMessage.error m with
         | Some e => if String.eqb e "" then RawMessage.message m else Some e
         | None => RawMessage.message m
         end.
Proof.
  intros D T. exists (new_Message m).
  rewrite (processLine_decodes _ _ _ D). simpl.
  split; [|split].
  - intros H. by rewrite (classify_error _ _ H).
  - intros H. by rewrite (classify_warning _ _ H).
  - unfold or_else, JS.truthy.
    destruct (RawMessage.error m) as [e|]; [|reflexivity].
    destruct (String.eqb e ""); reflexivity.
Qed.

(** C10. For every valid record of type ["variable"], a [VariableInfo]
    is appended and nothing is logged, also when the [definitions] or the
    [usage] field is absent: the sequence of an absent field is empty,
    and that of a present field holds the mapped positions in order. *)
Theorem variable_with_absent_fields d line m :
  decodes line m ->
  type_is m "variable" = true ->
  exists v,
    info (processLine d line)
    = {| SQFLint.errors := SQFLint.errors (info d);
         SQFLint.warnings := SQFLint.warnings (info d);
         SQFLint.variables := SQFLint.variables (info d) ++ [v] |}
    /\ console (processLine d line) = console d
    /\ SQFLint.name v = RawMessage.variable m
    /\ SQFLint.comment v = parseComment (RawMessage.comment m)
    /\ (RawMessage.definitions m = None -> SQFLint.definitions v = [])
    /\ (RawMessage.usage m = None -> SQFLint.usage v = [])
    /\ (forall ps, RawMessage.definitions m = Some ps ->
                   SQFLint.definitions v = map parsePosition ps)
    /\ (forall ps, RawMessage.usage m = Some ps ->
                   SQFLint.usage v = map parsePosition ps).
Proof.
  intros D T. exists (new_VariableInfo m).
  rewrite (processLine_decodes _ _ _ D). simpl.
  rewrite (classify_variable _ _ T).
  repeat split; simpl; try (intros ->; reflexivity); intros ps ->; reflexivity.
Qed.

End DecoderFacts.

(** ** Debounced Scheduler and Process Runner *)

Section ClientFacts.

Variable JSON_parse : string -> Parsed.

Abbreviation step := (step JSON_parse).
Abbreviation run := (run JSON_parse).
Abbreviation reachable := (reachable JSON_parse).
Abbreviation onData := (onData JSON_parse).
Abbreviation processLine := (processLine JSON_parse).

(** *** Promises settle once *)

Lemma settle_length p v s : length (promises (settle p v s)) = length (promises s).
Proof.
  unfold settle. destruct (promises s !! p) as [[]|]; simpl; try done.
  by rewrite length_insert.
Qed.

Lemma settle_pending p v s :
  promises s !! p = Some Pending -> promises (settle p v s) !! p = Some v.
Proof.
  intros H. unfold settle. rewrite H. simpl.
  apply list_lookup_insert_eq. by eapply lookup_lt_Some.
Qed.

Lemma settle_other p q v s : p <> q -> promises (settle p v s) !! q = promises s !! q.
Proof.
  intros H. unfold settle. destruct (promises s !! p) as [[]|]; simpl; try done.
  by apply list_lookup_insert_ne.
Qed.

Lemma settle_settled p q v w s :
  promises s !! q = Some w -> w <> Pending -> promises (settle p v s) !! q = Some w.
Proof.
  intros H Hw. destruct (decide (p = q)) as [->|Hne].
  - unfold settle. rewrite H. by destruct w.
  - by rewrite settle_other.
Qed.

Lemma settle_frame p v s :
  top (settle p v s) = top s /\ timeout (settle p v s) = timeout s
  /\ timers (settle p v s) = timers s /\ next_timer (settle p v s) = next_timer s
  /\ children (settle p v s) = children s /\ log (settle p v s) = log s
  /\ processed (settle p v s) = processed s.
Proof. unfold settle. destruct (promises s !! p) as [[]|]; done. Qed.

(** *** The invariant *)

Lemma inv_init : inv init.
Proof. repeat split; constructor. Qed.

Lemma floor_le s : inv s -> floor s <= length (promises s).
Proof.
  intros (_ & _ & _ & H). unfold floor. destruct (top s); [|done].
  destruct H as (H & _). lia.
Qed.

(** What a call does, whatever was waiting. *)
Lemma parse_spec contents s :
  inv s ->
  let s' := fst (parse contents s) in
  let p := length (promises s) in
  snd (parse contents s) = p
  /\ top s' = Some {| promise := p; contents := contents |}
  /\ timeout s' = Some (next_timer s) /\ timers s' = [next_timer s]
  /\ next_timer s' = S (next_timer s)
  /\ length (promises s') = S p
  /\ promises s' !! p = Some Pending
  /\ children s' = children s /\ processed s' = processed s /\ log s' = log s
  /\ (forall q, q < p ->
        promises s' !! q
        = match top s with
          | Some t => if decide (q = promise t) then Some (Rejected NoPayload)
                      else promises s !! q
          | None => promises s !! q
          end).
Proof.
  intros (Hc & Hp & Hnd & Ht). unfold parse.
  destruct (top s) as [t|] eqn:Etop.
  - destruct Ht as (Hlen & Hpend & h & Hto & Htm). rewrite Hto.
    assert (Hf : filter (fun t' => t' <> h) (timers s) = []).
    { rewrite Htm. cbn. by rewrite decide_False by (intros ?; done). }
    unfold clearTimeout. simpl. rewrite Etop.
    unfold settle. simpl. rewrite Hpend. simpl.
    rewrite Hf, length_insert. simpl.
    repeat split; try done.
    + rewrite length_app, length_insert. simpl. lia.
    + rewrite lookup_app_r by (rewrite length_insert; lia).
      by rewrite length_insert, Nat.sub_diag.
    + intros q Hq. rewrite lookup_app_l by (rewrite length_insert; lia).
      destruct (decide (q = promise t)) as [->|Hne].
      * apply list_lookup_insert_eq. lia.
      * by apply list_lookup_insert_ne.
  - destruct Ht as (Hto & Htm). rewrite Hto. simpl. rewrite Htm. simpl.
    repeat split; try done.
    + rewrite length_app. simpl. lia.
    + rewrite lookup_app_r by lia. by rewrite Nat.sub_diag.
    + intros q Hq. by rewrite lookup_app_l by lia.
Qed.

Lemma inv_parse contents s : inv s -> inv (fst (parse contents s)).
Proof.
  intros Hinv. pose proof (floor_le s Hinv) as Hfl.
  destruct (parse_spec contents s Hinv)
    as (_ & Htop & Hto & Htm & _ & Hlen & Hpend & Hch & Hpr & _).
  destruct Hinv as (Hc & Hp & Hnd & _).
  generalize dependent (fst (parse contents s)). intros s' Htop Hto Htm Hlen Hpend Hch Hpr.
  unfold inv, floor. rewrite Htop, Hch, Hpr. cbn [promise].
  split; [|split; [|split; [|split; [|split]]]].
  - eapply Forall_impl; [exact Hc|]. simpl. intros; lia.
  - eapply Forall_impl; [exact Hp|]. simpl. intros; lia.
  - exact Hnd.
  - by rewrite Hlen.
  - exact Hpend.
  - eauto.
Qed.



(** *** Timers *)

Lemma fire_armed s t tk :
  inv s -> top s = Some tk -> t ∈ timers s ->
  timeout s = Some t /\ timers s = [t]
  /\ S (promise tk) = length (promises s)
  /\ promises s !! promise tk = Some Pending.
Proof.
  intros (_ & _ & _ & H) Htop Hin. rewrite Htop in H.
  destruct H as (Hlen & Hpend & h & Hto & Htm).
  rewrite Htm in Hin. apply list_elem_of_singleton in Hin. subst h. done.
Qed.

(** A timer that fires with a task waiting and a child spawned. *)
Lemma fire_spawned s t tk d :
  inv s -> top s = Some tk -> t ∈ timers s ->
  exists s',
    step s (Fire t (Spawned d)) = Some s'
    /\ top s' = None /\ timeout s' = None /\ timers s' = []
    /\ promises s' = promises s
    /\ children s' = children s ++ [spawned tk d]
    /\ processed s' = processed s ++ [tk]
    /\ log s' = log s ++ match snd (feed (contents tk) d) with
                        | Some ex => [("SQFLint: Failed to contact the sqflint. Ex: " ++ ex)%string]
                        | None => []
                        end
    /\ next_timer s' = next_timer s.
Proof.
  intros Hinv Htop Hin.
  destruct (fire_armed s t tk Hinv Htop Hin) as (Hto & Htm & _).
  eexists. split.
  { cbn [step]. rewrite bool_decide_eq_true_2 by done. reflexivity. }
  unfold runLint, clearTimeout. cbn. rewrite Htop, Htm. cbn.
  rewrite decide_False by (intros ?; done). cbn.
  unfold spawned. destruct d; cbn; rewrite ?app_nil_r; done.
Qed.

(** A timer that fires with a task waiting and no child spawned. *)
Lemma fire_no_child s t tk :
  inv s -> top s = Some tk -> t ∈ timers s ->
  exists s',
    step s (Fire t NoChild) = Some s'
    /\ top s' = None /\ timeout s' = None /\ timers s' = []
    /\ length (promises s') = length (promises s)
    /\ promises s' !! promise tk
       = Some (Rejected (LaunchFailure "Failed to launch java process."))
    /\ (forall q, q <> promise tk -> promises s' !! q = promises s !! q)
    /\ children s' = children s
    /\ processed s' = processed s ++ [tk]
    /\ log s' = log s
    /\ next_timer s' = next_timer s.
Proof.
  intros Hinv Htop Hin.
  destruct (fire_armed s t tk Hinv Htop Hin) as (Hto & Htm & Hlen & Hpend).
  eexists. split.
  { cbn [step]. rewrite bool_decide_eq_true_2 by done. reflexivity. }
  unfold runLint, clearTimeout. cbn. rewrite Htop, Htm. cbn.
  rewrite decide_False by (intros ?; done). cbn.
  unfold settle. cbn. rewrite Hpend. cbn.
  repeat split; try done.
  - by rewrite length_insert.
  - apply list_lookup_insert_eq. lia.
  - intros q Hq. by apply list_lookup_insert_ne.
Qed.


(** *** Events of a child *)

(** A child event leaves the scheduler alone and keeps every child's task. *)
Lemma child_step_frame s e s' :
  child_event e -> step s e = Some s' ->
  top s' = top s /\ timeout s' = timeout s /\ timers s' = timers s
  /\ next_timer s' = next_timer s /\ processed s' = processed s
  /\ length (promises s') = length (promises s)
  /\ task <$> children s' = task <$> children s.
Proof.
  destruct e as [| |k data|k msg|k code]; try done; intros _; cbn [step];
    destruct (children s !! k) as [c|] eqn:Hk; try done;
    destruct (closed c); try done; intros [= <-].
  - unfold on_data. cbn. repeat split; try done.
    rewrite list_fmap_insert. cbn. apply list_insert_id.
    by rewrite list_lookup_fmap, Hk.
  - unfold on_error.
    destruct (settle_frame (promise (task c)) (Rejected (ChildFault msg))
      (console_error "SQFLint: Failed to call sqflint. Do you have java installed?" s))
      as (-> & -> & -> & -> & -> & _ & ->).
    rewrite settle_length. done.
  - unfold on_close. cbn.
    set (s0 := if nonzero code then _ else s).
    assert (H0 : top s0 = top s /\ timeout s0 = timeout s /\ timers s0 = timers s
                 /\ next_timer s0 = next_timer s /\ processed s0 = processed s
                 /\ promises s0 = promises s /\ children s0 = children s).
    { unfold s0. destruct (nonzero code); done. }
    destruct H0 as (H1 & H2 & H3 & H4 & H5 & H6 & H7).
    destruct (settle_frame (promise (task c)) (Fulfilled k) s0)
      as (-> & -> & -> & -> & -> & _ & ->).
    rewrite settle_length, H1, H2, H3, H4, H5, H6, H7.
    repeat split; try done.
    rewrite list_fmap_insert. cbn. apply list_insert_id.
    by rewrite list_lookup_fmap, Hk.
Qed.

(** The promises after a child event: at most the child's own promise
    changes, and only if it was pending. *)
Lemma child_step_promises s e s' q w :
  child_event e -> step s e = Some s' ->
  promises s !! q = Some w ->
  promises s' !! q = Some w
  \/ (w = Pending /\ exists c, c ∈ children s /\ promise (task c) = q).
Proof.
  destruct e as [| |k data|k msg|k code]; try done; intros _; cbn [step];
    destruct (children s !! k) as [c|] eqn:Hk; try done;
    destruct (closed c); try done; intros [= <-] Hq.
  - by left.
  - unfold on_error. destruct (decide (promise (task c) = q)) as [<-|Hne].
    + destruct w; [right|left|left].
      * split; [done|]. exists c. split; [|done]. by eapply list_elem_of_lookup_2.
      * by apply settle_settled.
      * by apply settle_settled.
    + left. by rewrite settle_other.
  - unfold on_close. cbn.
    set (s0 := if nonzero code then _ else s).
    assert (H0 : promises s0 = promises s) by (unfold s0; destruct (nonzero code); done).
    destruct (decide (promise (task c) = q)) as [<-|Hne].
    + destruct w; [right|left|left].
      * split; [done|]. exists c. split; [|done]. by eapply list_elem_of_lookup_2.
      * apply settle_settled; [by rewrite H0|done].
      * apply settle_settled; [by rewrite H0|done].
    + left. rewrite settle_other by done. by rewrite H0.
Qed.


(** *** The invariant holds of every reachable state *)

Lemma inv_child_step s e s' :
  child_event e -> inv s -> step s e = Some s' -> inv s'.
Proof.
  intros He Hinv Hstep.
  destruct (child_step_frame s e s' He Hstep) as (Htop & Hto & Htm & _ & Hpr & Hlen & Htask).
  destruct Hinv as (Hc & Hp & Hnd & Ht).
  assert (Hfl : floor s' = floor s) by (unfold floor; by rewrite Htop, Hlen).
  unfold inv. rewrite Hfl, Hpr, Htop, Hto, Htm, Hlen, Htask.
  split; [|split; [done|split; [done|]]].
  - apply (Forall_fmap task (fun t => promise t < floor s)).
    rewrite Htask. by apply Forall_fmap.
  - destruct (top s) as [t|] eqn:Etop; [|done].
    destruct Ht as (H1 & H2 & H3). split; [done|split; [|done]].
    destruct (child_step_promises s e s' _ _ He Hstep H2) as [H|(_ & c & Hin & Hc')]; [done|].
    rewrite Forall_forall in Hc. specialize (Hc c Hin).
    unfold floor in Hc. rewrite Etop in Hc. lia.
Qed.

Lemma fire_has_task s t sp s' :
  inv s -> step s (Fire t sp) = Some s' ->
  exists tk, top s = Some tk /\ t ∈ timers s.
Proof.
  intros (_ & _ & _ & Ht) Hstep. cbn [step] in Hstep.
  destruct (bool_decide (t ∈ timers s)) eqn:Hin; [|done].
  apply bool_decide_eq_true_1 in Hin.
  destruct (top s) as [tk|]; [by exists tk|].
  destruct Ht as (_ & Htm). rewrite Htm in Hin. by apply elem_of_nil in Hin.
Qed.

Lemma inv_step s e s' : inv s -> step s e = Some s' -> inv s'.
Proof.
  intros Hinv Hstep. destruct e as [contents|t sp|k data|k msg|k code].
  - injection Hstep as <-. by apply inv_parse.
  - destruct (fire_has_task s t sp s' Hinv Hstep) as (tk & Etop & Hin).
    destruct (fire_armed s t tk Hinv Etop Hin) as (_ & _ & Hlen & _).
    pose proof Hinv as (Hc & Hp & Hnd & _).
    unfold floor in Hc, Hp. rewrite Etop in Hc, Hp.
    destruct sp as [|d].
    + destruct (fire_no_child s t tk Hinv Etop Hin)
        as (s1 & Hs1 & H1 & H2 & H3 & H4 & _ & _ & H7 & H8 & _).
      rewrite Hstep in Hs1. injection Hs1 as <-.
      unfold inv, floor. rewrite H1, H2, H3, H4, H7, H8.
      split; [|split; [|done]].
      * eapply Forall_impl; [exact Hc|]. simpl. intros; lia.
      * apply Forall_app. split.
        -- eapply Forall_impl; [exact Hp|]. simpl. intros; lia.
        -- repeat constructor. lia.
    + destruct (fire_spawned s t tk d Hinv Etop Hin)
        as (s1 & Hs1 & H1 & H2 & H3 & H4 & H5 & H6 & _).
      rewrite Hstep in Hs1. injection Hs1 as <-.
      unfold inv, floor. rewrite H1, H2, H3, H4, H5, H6.
      split; [|split; [|split; [|done]]].
      * apply Forall_app. split.
        -- eapply Forall_impl; [exact Hc|]. simpl. intros; lia.
        -- repeat constructor. simpl. lia.
      * apply Forall_app. split.
        -- eapply Forall_impl; [exact Hp|]. simpl. intros; lia.
        -- repeat constructor. lia.
      * rewrite !fmap_app. apply NoDup_app. split; [done|]. split.
        -- intros x Hx Hx'. cbn in Hx'. apply list_elem_of_singleton in Hx'. subst x.
           apply list_elem_of_fmap in Hx as (tk' & Heq & Hx).
           apply list_elem_of_fmap in Hx as (c & -> & Hx).
           rewrite Forall_forall in Hc. specialize (Hc c Hx). lia.
        -- cbn. apply NoDup_singleton.
  - by eapply (inv_child_step s (Data k data)).
  - by eapply (inv_child_step s (Fault k msg)).
  - by eapply (inv_child_step s (Close k code)).
Qed.

Lemma inv_run es s s' : inv s -> run s es = Some s' -> inv s'.
Proof.
  revert s. induction es as [|e es IH]; intros s Hinv; cbn [run].
  - by intros [= <-].
  - destruct (step s e) as [s1|] eqn:E; [|done].
    apply IH. by eapply inv_step.
Qed.

Lemma reachable_inv s : reachable s -> inv s.
Proof. intros [es H]. eapply inv_run; [apply inv_init|exact H]. Qed.

Lemma run_app es1 es2 s :
  run s (es1 ++ es2) = match run s es1 with Some s1 => run s1 es2 | None => None end.
Proof.
  revert s. induction es1 as [|e es1 IH]; intros s; cbn [run app]; [done|].
  destruct (step s e); [apply IH|done].
Qed.

Lemma reachable_run es s s' : reachable s -> run s es = Some s' -> reachable s'.
Proof. intros [es0 H0] H. exists (es0 ++ es). by rewrite run_app, H0. Qed.

(** *** A settled promise stays as it is *)

Lemma step_settled s e s' q w :
  inv s -> step s e = Some s' ->
  promises s !! q = Some w -> w <> Pending -> promises s' !! q = Some w.
Proof.
  intros Hinv Hstep Hq Hw. destruct e as [contents|t sp|k data|k msg|k code].
  - injection Hstep as <-.
    destruct (parse_spec contents s Hinv) as (_ & _ & _ & _ & _ & _ & _ & _ & _ & _ & Hold).
    rewrite Hold by (by eapply lookup_lt_Some).
    destruct (top s) as [tk|] eqn:Etop; [|done].
    destruct Hinv as (_ & _ & _ & Ht). rewrite Etop in Ht. destruct Ht as (_ & Hpend & _).
    destruct (decide (q = promise tk)) as [->|]; [|done]. congruence.
  - pose proof Hstep as Hstep'. cbn [step] in Hstep'.
    destruct (bool_decide (t ∈ timers s)) eqn:Hin; [|done]. clear Hstep'.
    apply bool_decide_eq_true_1 in Hin.
    destruct (top s) as [tk|] eqn:Etop.
    2:{ destruct Hinv as (_ & _ & _ & Ht). rewrite Etop in Ht. destruct Ht as (_ & Htm).
        rewrite Htm in Hin. by apply elem_of_nil in Hin. }
    destruct (fire_armed s t tk Hinv Etop Hin) as (_ & _ & _ & Hpend).
    destruct sp as [|d].
    + destruct (fire_no_child s t tk Hinv Etop Hin)
        as (s1 & Hs1 & _ & _ & _ & _ & _ & Hother & _).
      rewrite Hstep in Hs1. injection Hs1 as <-.
      rewrite Hother; [done|]. intros ->. congruence.
    + destruct (fire_spawned s t tk d Hinv Etop Hin)
        as (s1 & Hs1 & _ & _ & _ & Hsame & _).
      rewrite Hstep in Hs1. injection Hs1 as <-. by rewrite Hsame.
  - destruct (child_step_promises s (Data k data) s' q w I Hstep Hq) as [H|(H & _)]; done.
  - destruct (child_step_promises s (Fault k msg) s' q w I Hstep Hq) as [H|(H & _)]; done.
  - destruct (child_step_promises s (Close k code) s' q w I Hstep Hq) as [H|(H & _)]; done.
Qed.

Lemma run_settled es s s' q w :
  inv s -> run s es = Some s' ->
  promises s !! q = Some w -> w <> Pending -> promises s' !! q = Some w.
Proof.
  revert s. induction es as [|e es IH]; intros s Hinv; cbn [run].
  - by intros [= <-].
  - destruct (step s e) as [s1|] eqn:E; [|done]. intros Hrun Hq Hw.
    eapply IH; [by eapply inv_step|done| |done]. by eapply step_settled.
Qed.

(** *** A promise without a run never gets one *)

(** What one event does to the floor, the children and the history of
    [process]: the floor does not go down, and a task that enters the
    children or the history holds a promise at or above the old floor. *)
Lemma step_growth s e s' :
  inv s -> step s e = Some s' ->
  floor s <= floor s'
  /\ (exists new,
        task <$> children s' = (task <$> children s) ++ new
        /\ Forall (fun t => floor s <= promise t) new)
  /\ (exists new,
        processed s' = processed s ++ new
        /\ Forall (fun t => floor s <= promise t) new).
Proof.
  intros Hinv Hstep. pose proof (floor_le s Hinv) as Hle.
  destruct e as [contents|t sp|k data|k msg|k code].
  - assert (Hs' : s' = fst (parse contents s)) by (cbn [step] in Hstep; congruence).
    subst s'.
    destruct (parse_spec contents s Hinv)
      as (_ & Htop & _ & _ & _ & _ & _ & Hch & Hpr & _).
    unfold floor at 2. rewrite Htop, Hch, Hpr. cbn [promise].
    split; [lia|]. split; exists []; by rewrite app_nil_r.
  - destruct (fire_has_task s t sp s' Hinv Hstep) as (tk & Etop & Hin).
    destruct (fire_armed s t tk Hinv Etop Hin) as (_ & _ & Hlen & _).
    assert (Hfl : floor s = promise tk) by (unfold floor; by rewrite Etop).
    destruct sp as [|d].
    + destruct (fire_no_child s t tk Hinv Etop Hin)
        as (s1 & Hs1 & H1 & _ & _ & H4 & _ & _ & H7 & H8 & _).
      rewrite Hstep in Hs1. injection Hs1 as <-.
      unfold floor at 2. rewrite H1, H4, H7, H8.
      split; [lia|]. split.
      * exists []. by rewrite app_nil_r.
      * exists [tk]. split; [done|]. repeat constructor. lia.
    + destruct (fire_spawned s t tk d Hinv Etop Hin)
        as (s1 & Hs1 & H1 & _ & _ & H4 & H5 & H6 & _).
      rewrite Hstep in Hs1. injection Hs1 as <-.
      unfold floor at 2. rewrite H1, H4, H5, H6.
      split; [lia|]. split.
      * exists [tk]. rewrite fmap_app. split; [done|]. repeat constructor. lia.
      * exists [tk]. split; [done|]. repeat constructor. lia.
  - destruct (child_step_frame s (Data k data) s' I Hstep)
      as (Htop & _ & _ & _ & Hpr & Hlen & Htask).
    unfold floor at 2. rewrite Htop, Hlen, Hpr, Htask. fold (floor s).
    split; [lia|]. split; exists []; by rewrite app_nil_r.
  - destruct (child_step_frame s (Fault k msg) s' I Hstep)
      as (Htop & _ & _ & _ & Hpr & Hlen & Htask).
    unfold floor at 2. rewrite Htop, Hlen, Hpr, Htask. fold (floor s).
    split; [lia|]. split; exists []; by rewrite app_nil_r.
  - destruct (child_step_frame s (Close k code) s' I Hstep)
      as (Htop & _ & _ & _ & Hpr & Hlen & Htask).
    unfold floor at 2. rewrite Htop, Hlen, Hpr, Htask. fold (floor s).
    split; [lia|]. split; exists []; by rewrite app_nil_r.
Qed.

Lemma childless_step p s e s' :
  inv s -> childless p s -> step s e = Some s' -> childless p s'.
Proof.
  intros Hinv (Hfl & Hc) Hstep.
  destruct (step_growth s e s' Hinv Hstep) as (Hle & (new & Hnew & Hge) & _).
  split; [lia|].
  apply (Forall_fmap task (fun t => promise t <> p)). rewrite Hnew.
  apply Forall_app. split; [by apply Forall_fmap|].
  eapply Forall_impl; [exact Hge|]. simpl. intros; lia.
Qed.

Lemma unprocessed_step p s e s' :
  inv s -> unprocessed p s -> step s e = Some s' -> unprocessed p s'.
Proof.
  intros Hinv (Hfl & Hp) Hstep.
  destruct (step_growth s e s' Hinv Hstep) as (Hle & _ & (new & Hnew & Hge)).
  split; [lia|]. rewrite Hnew.
  apply Forall_app. split; [done|].
  eapply Forall_impl; [exact Hge|]. simpl. intros; lia.
Qed.

Lemma childless_run p es s s' :
  inv s -> childless p s -> run s es = Some s' -> childless p s'.
Proof.
  revert s. induction es as [|e es IH]; intros s Hinv Hd; cbn [run].
  - by intros [= <-].
  - destruct (step s e) as [s1|] eqn:E; [|done].
    apply IH; [by eapply inv_step|by eapply childless_step].
Qed.

Lemma unprocessed_run p es s s' :
  inv s -> unprocessed p s -> run s es = Some s' -> unprocessed p s'.
Proof.
  revert s. induction es as [|e es IH]; intros s Hinv Hd; cbn [run].
  - by intros [= <-].
  - destruct (step s e) as [s1|] eqn:E; [|done].
    apply IH; [by eapply inv_step|by eapply unprocessed_step].
Qed.

(** *** A cancelled timer never fires *)

Lemma cancelled_step t s e s' :
  inv s -> cancelled t s -> step s e = Some s' -> cancelled t s'.
Proof.
  intros Hinv (Hlt & Hnot) Hstep. destruct e as [contents|h sp|k data|k msg|k code].
  - assert (Hs' : s' = fst (parse contents s)) by (cbn [step] in Hstep; congruence).
    subst s'.
    destruct (parse_spec contents s Hinv) as (_ & _ & _ & Htm & Hnx & _).
    unfold cancelled. rewrite Htm, Hnx. split; [lia|].
    intros Hin. apply list_elem_of_singleton in Hin. lia.
  - destruct (fire_has_task s h sp s' Hinv Hstep) as (tk & Etop & Hin).
    destruct sp as [|d].
    + destruct (fire_no_child s h tk Hinv Etop Hin)
        as (s1 & Hs1 & _ & _ & H3 & _ & _ & _ & _ & _ & _ & H9).
      rewrite Hstep in Hs1. injection Hs1 as <-.
      unfold cancelled. rewrite H3, H9. split; [done|]. apply not_elem_of_nil.
    + destruct (fire_spawned s h tk d Hinv Etop Hin)
        as (s1 & Hs1 & _ & _ & H3 & _ & _ & _ & _ & H9).
      rewrite Hstep in Hs1. injection Hs1 as <-.
      unfold cancelled. rewrite H3, H9. split; [done|]. apply not_elem_of_nil.
  - destruct (child_step_frame s (Data k data) s' I Hstep) as (_ & _ & Htm & Hnx & _).
    unfold cancelled. by rewrite Htm, Hnx.
  - destruct (child_step_frame s (Fault k msg) s' I Hstep) as (_ & _ & Htm & Hnx & _).
    unfold cancelled. by rewrite Htm, Hnx.
  - destruct (child_step_frame s (Close k code) s' I Hstep) as (_ & _ & Htm & Hnx & _).
    unfold cancelled. by rewrite Htm, Hnx.
Qed.

Lemma cancelled_run t es s s' :
  inv s -> cancelled t s -> run s es = Some s' -> cancelled t s'.
Proof.
  revert s. induction es as [|e es IH]; intros s Hinv Hd; cbn [run].
  - by intros [= <-].
  - destruct (step s e) as [s1|] eqn:E; [|done].
    apply IH; [by eapply inv_step|by eapply cancelled_step].
Qed.

Lemma cancelled_never_fires t s sp : cancelled t s -> step s (Fire t sp) = None.
Proof.
  intros (_ & Hnot). cbn [step]. by rewrite bool_decide_eq_false_2.
Qed.



(** *** The result of a run does not depend on the log *)

Lemma processLine_info d1 d2 line :
  info d1 = info d2 -> info (processLine d1 line) = info (processLine d2 line).
Proof.
  intros H. unfold processLine.
  destruct (JS.len (JS.strip_eol line) =? 0)%Z; [done|].
  destruct (JSON_parse line) as [|[m|]]; simpl; by rewrite ?H.
Qed.

Lemma processLines_info lines d1 d2 :
  info d1 = info d2 ->
  info (fold_left processLine lines d1) = info (fold_left processLine lines d2).
Proof.
  revert d1 d2. induction lines as [|l lines IH]; intros d1 d2 H; simpl; [done|].
  apply IH. by apply processLine_info.
Qed.

Lemma accumulate_onData i data c :
  info (onData {| info := i; console := c |} data) = accumulate JSON_parse i [data].
Proof. unfold accumulate. simpl. by apply processLines_info. Qed.

Lemma accumulate_cons i data chunks :
  accumulate JSON_parse i (data :: chunks)
  = accumulate JSON_parse (accumulate JSON_parse i [data]) chunks.
Proof.
  unfold accumulate. simpl.
  set (d1 := onData _ data).
  assert (H : forall chunks d1 d2, info d1 = info d2 ->
              info (fold_left onData chunks d1) = info (fold_left onData chunks d2)).
  { clear. induction chunks as [|x chunks IH]; intros d1 d2 H; simpl; [done|].
    apply IH. by apply processLines_info. }
  by apply H.
Qed.

(** *** The events of one run *)

(** Chunks delivered to an open child accumulate in its [ParseInfo];
    nothing else of the child and no promise changes. *)
Lemma run_data chunks s k c :
  children s !! k = Some c -> closed c = false ->
  exists s' c',
    run s (Data k <$> chunks) = Some s'
    /\ children s' !! k = Some c'
    /\ task c' = task c /\ stdin c' = stdin c /\ killed c' = killed c
    /\ closed c' = false
    /\ result c' = accumulate JSON_parse (result c) chunks
    /\ promises s' = promises s.
Proof.
  revert s c. induction chunks as [|data chunks IH]; intros s c Hk Hopen.
  - exists s, c. repeat split; done.
  - cbn [fmap list_fmap run step]. rewrite Hk, Hopen.
    set (s1 := on_data JSON_parse k c data s).
    set (c1 := {| task := task c;
                  result := info (onData {| info := result c; console := log s |} data);
                  stdin := stdin c; killed := killed c; closed := closed c |}).
    assert (Hk1 : children s1 !! k = Some c1).
    { unfold s1, on_data. cbn. apply list_lookup_insert_eq. by eapply lookup_lt_Some. }
    destruct (IH s1 c1 Hk1 Hopen) as (s' & c' & Hrun & Hk' & H1 & H2 & H3 & H4 & H5 & H6).
    exists s', c'. repeat split; try done.
    rewrite H5. cbn [result c1]. rewrite accumulate_cons.
    by rewrite <- accumulate_onData with (c := log s).
Qed.

(** The [close] handler calls [success(info)] whatever the code is. *)
Lemma close_fulfils s k c code :
  children s !! k = Some c -> closed c = false ->
  promises s !! promise (task c) = Some Pending ->
  exists s',
    step s (Close k code) = Some s'
    /\ promise_state s' (promise (task c)) = Some (Fulfilled k)
    /\ fulfilled_with s' (promise (task c)) = Some (result c)
    /\ log s'
       = log s ++ (if nonzero code
                   then ["SQFLint: Failed to run sqflint. Do you have java installed?"]
                   else []).
Proof.
  intros Hk Hopen Hpend. eexists. split.
  { cbn [step]. rewrite Hk, Hopen. reflexivity. }
  unfold on_close, promise_state, fulfilled_with.
  set (s0 := if nonzero code then _ else s).
  assert (H0 : promises s0 = promises s /\ children s0 = children s
               /\ log s0 = log s ++ (if nonzero code
                   then ["SQFLint: Failed to run sqflint. Do you have java installed?"]
                   else [])).
  { unfold s0. destruct (nonzero code); cbn; rewrite ?app_nil_r; done. }
  destruct H0 as (Hp0 & Hc0 & Hl0).
  assert (Hset : promises (settle (promise (task c)) (Fulfilled k) s0)
                 !! promise (task c) = Some (Fulfilled k)).
  { apply settle_pending. by rewrite Hp0. }
  destruct (settle_frame (promise (task c)) (Fulfilled k) s0)
    as (_ & _ & _ & _ & Hch & Hlog & _).
  cbn. rewrite Hset, Hch, Hlog, Hc0.
  repeat split; try done.
  rewrite list_lookup_insert_eq by (by eapply lookup_lt_Some). done.
Qed.



(** *** A run until its close event *)

Lemma onData_chunks_info chunks d1 d2 :
  info d1 = info d2 ->
  info (fold_left onData chunks d1) = info (fold_left onData chunks d2).
Proof.
  revert d1 d2. induction chunks as [|x chunks IH]; intros d1 d2 H; simpl; [done|].
  apply IH. by apply processLines_info.
Qed.

Lemma accumulate_app i a b :
  accumulate JSON_parse i (a ++ b)
  = accumulate JSON_parse (accumulate JSON_parse i a) b.
Proof. unfold accumulate. rewrite fold_left_app. by apply onData_chunks_info. Qed.

Lemma children_promise_inj s i j a b :
  inv s -> children s !! i = Some a -> children s !! j = Some b ->
  promise (task a) = promise (task b) -> i = j.
Proof.
  intros (_ & _ & Hnd & _) Ha Hb Heq.
  eapply NoDup_lookup; [exact Hnd| |].
  - rewrite !list_lookup_fmap, Ha. reflexivity.
  - rewrite !list_lookup_fmap, Hb. cbn. by rewrite Heq.
Qed.

Lemma child_below_floor s k c :
  inv s -> children s !! k = Some c -> promise (task c) < floor s.
Proof.
  intros (Hc & _) Hk. rewrite Forall_forall in Hc. apply Hc.
  by eapply list_elem_of_lookup_2.
Qed.

Lemma on_data_frame k c data s :
  promises (on_data JSON_parse k c data s) = promises s
  /\ children (on_data JSON_parse k c data s)
     = <[k := {| task := task c;
                 result := info (onData {| info := result c; console := log s |} data);
                 stdin := stdin c; killed := killed c; closed := closed c |}]> (children s).
Proof. done. Qed.

(** A run goes on through every event but its own [error] and [close]:
    the child stays open, its promise pending, and its chunks
    accumulate. *)
Lemma running_step k tk r s e s' :
  inv s -> running k tk r s -> quiet k e -> step s e = Some s' ->
  running k tk (accumulate JSON_parse r (chunks_of k [e])) s'.
Proof.
  intros Hinv (c & Hk & Htk & Hopen & Hres & Hpend) Hq Hstep.
  pose proof (child_below_floor s k c Hinv Hk) as Hlow. rewrite Htk in Hlow.
  destruct e as [contents|t sp|k' data|k' msg|k' code].
  - assert (Hs' : s' = fst (parse contents s)) by (cbn [step] in Hstep; congruence).
    subst s'.
    destruct (parse_spec contents s Hinv)
      as (_ & _ & _ & _ & _ & _ & _ & Hch & _ & _ & Hold).
    exists c. rewrite Hch. repeat split; try done.
    rewrite Hold by (by eapply lookup_lt_Some).
    destruct (top s) as [tw|] eqn:Etop; [|done].
    unfold floor in Hlow. rewrite Etop in Hlow.
    rewrite decide_False by lia. done.
  - destruct (fire_has_task s t sp s' Hinv Hstep) as (tw & Etop & Hin).
    unfold floor in Hlow. rewrite Etop in Hlow.
    destruct sp as [|d].
    + destruct (fire_no_child s t tw Hinv Etop Hin)
        as (s1 & Hs1 & _ & _ & _ & _ & _ & Hother & Hch & _).
      rewrite Hstep in Hs1. injection Hs1 as <-.
      exists c. rewrite Hch. repeat split; try done.
      rewrite Hother by lia. done.
    + destruct (fire_spawned s t tw d Hinv Etop Hin)
        as (s1 & Hs1 & _ & _ & _ & Hsame & Hch & _).
      rewrite Hstep in Hs1. injection Hs1 as <-.
      exists c. rewrite Hch, Hsame. repeat split; try done.
      rewrite lookup_app_l by (by eapply lookup_lt_Some). done.
  - cbn [step] in Hstep.
    destruct (children s !! k') as [c'|] eqn:Hk'; [|done].
    destruct (closed c') eqn:Hopen'; [done|]. injection Hstep as <-.
    destruct (on_data_frame k' c' data s) as (Hp' & Hc').
    unfold running. rewrite Hp', Hc'. cbn [chunks_of flat_map].
    destruct (decide (k' = k)) as [->|Hne].
    + rewrite Hk in Hk'. injection Hk' as <-.
      eexists. split; [apply list_lookup_insert_eq; by eapply lookup_lt_Some|].
      cbn [task closed result]. repeat split; try done.
      rewrite app_nil_r, <- (accumulate_onData _ _ (log s)), Hres. done.
    + exists c. split; [by rewrite list_lookup_insert_ne|]. done.
  - cbn in Hq. cbn [step] in Hstep.
    destruct (children s !! k') as [c'|] eqn:Hk'; [|done].
    destruct (closed c') eqn:Hopen'; [done|]. injection Hstep as <-.
    unfold on_error.
    set (s0 := console_error _ s).
    destruct (settle_frame (promise (task c')) (Rejected (ChildFault msg)) s0)
      as (_ & _ & _ & _ & Hch & _).
    exists c. rewrite Hch. repeat split; try done.
    rewrite settle_other; [done|].
    intros Heq. apply Hq. rewrite <- Htk in Heq.
    by eapply (children_promise_inj s k' k c' c).
  - cbn in Hq. cbn [step] in Hstep.
    destruct (children s !! k') as [c'|] eqn:Hk'; [|done].
    destruct (closed c') eqn:Hopen'; [done|]. injection Hstep as <-.
    unfold on_close.
    set (s0 := if nonzero code then _ else s).
    assert (H0 : promises s0 = promises s /\ children s0 = children s)
      by (unfold s0; destruct (nonzero code); done).
    destruct H0 as (Hp0 & Hc0).
    destruct (settle_frame (promise (task c')) (Fulfilled k') s0)
      as (_ & _ & _ & _ & Hch & _).
    exists c. cbn. rewrite Hch, Hc0.
    split; [by rewrite list_lookup_insert_ne|]. repeat split; try done.
    rewrite settle_other; [by rewrite Hp0|].
    intros Heq. apply Hq. rewrite <- Htk in Heq.
    by eapply (children_promise_inj s k' k c' c).
Qed.

Lemma chunks_of_cons k e es : chunks_of k (e :: es) = chunks_of k [e] ++ chunks_of k es.
Proof. unfold chunks_of. cbn [flat_map]. by rewrite app_nil_r. Qed.

Lemma running_run k tk es r s s' :
  inv s -> running k tk r s -> Forall (quiet k) es -> run s es = Some s' ->
  running k tk (accumulate JSON_parse r (chunks_of k es)) s'.
Proof.
  revert r s. induction es as [|e es IH]; intros r s Hinv Hr Hq; cbn [run].
  - by intros [= <-].
  - destruct (step s e) as [s1|] eqn:E; [|done]. intros Hrun.
    apply Forall_cons in Hq as (Hq1 & Hq2).
    rewrite chunks_of_cons, accumulate_app.
    eapply IH; [by eapply inv_step| |done|done].
    by eapply running_step.
Qed.

(** The child of a launch runs the task that was waiting. *)
Lemma launched_running s t tk d :
  inv s -> top s = Some tk -> t ∈ timers s ->
  exists s1,
    step s (Fire t (Spawned d)) = Some s1
    /\ running (length (children s)) tk SQFLint.new_ParseInfo s1
    /\ children s1 !! length (children s) = Some (spawned tk d)
    /\ promises s1 = promises s
    /\ log s1 = log s ++ match snd (feed (contents tk) d) with
                        | Some ex => [("SQFLint: Failed to contact the sqflint. Ex: " ++ ex)%string]
                        | None => []
                        end.
Proof.
  intros Hinv Etop Hin.
  destruct (fire_armed s t tk Hinv Etop Hin) as (_ & _ & _ & Hpend).
  destruct (fire_spawned s t tk d Hinv Etop Hin)
    as (s1 & Hs1 & _ & _ & _ & Hsame & Hch & _ & Hlog & _).
  assert (Hk : children s1 !! length (children s) = Some (spawned tk d)).
  { rewrite Hch, lookup_app_r by lia. by rewrite Nat.sub_diag. }
  exists s1. repeat split; try done.
  exists (spawned tk d). rewrite Hsame. done.
Qed.

(** A run that reaches its close event is fulfilled with what it
    accumulated. *)
Lemma run_until_close s1 k tk es s2 code :
  inv s1 -> running k tk SQFLint.new_ParseInfo s1 ->
  Forall (quiet k) es -> run s1 es = Some s2 ->
  promise_state s2 (promise tk) = Some Pending
  /\ exists s3,
       step s2 (Close k code) = Some s3
       /\ promise_state s3 (promise tk) = Some (Fulfilled k)
       /\ fulfilled_with s3 (promise tk)
          = Some (accumulate JSON_parse SQFLint.new_ParseInfo (chunks_of k es))
       /\ log s3
          = log s2 ++ (if nonzero code
                       then ["SQFLint: Failed to run sqflint. Do you have java installed?"]
                       else []).
Proof.
  intros Hinv Hr Hq Hrun.
  destruct (running_run k tk es _ s1 s2 Hinv Hr Hq Hrun)
    as (c & Hk & Htk & Hopen & Hres & Hpend).
  split; [done|].
  rewrite <- Htk in Hpend.
  destruct (close_fulfils s2 k c code Hk Hopen Hpend) as (s3 & H1 & H2 & H3 & H4).
  exists s3. rewrite <- Htk, <- Hres. done.
Qed.

(** *** The claims on the scheduler and the runner *)

Lemma child_run_frame es s s' :
  Forall child_event es -> run s es = Some s' ->
  top s' = top s /\ timers s' = timers s /\ next_timer s' = next_timer s
  /\ processed s' = processed s /\ length (promises s') = length (promises s).
Proof.
  intros Hev. revert s. induction Hev as [|e es He Hes IH]; intros s; cbn [run].
  - by intros [= <-].
  - destruct (step s e) as [sm|] eqn:E; [|done]. intros Hrun.
    destruct (child_step_frame s e sm He E) as (F1 & _ & F3 & F4 & F5 & F6 & _).
    destruct (IH sm Hrun) as (G1 & G2 & G3 & G4 & G5).
    rewrite G1, G2, G3, G4, G5, F1, F3, F4, F5, F6. done.
Qed.

(** C1. For every two calls to [parse] such that the second arrives while
    the timer of the first is armed (events of earlier runs may come in
    between), the promise of the first call is rejected by the second
    call and stays rejected, its timer is cancelled and never fires, its
    task is never handed to [process] and no child ever holds it; the
    second call's task is the one waiting, and when its timer fires that
    task, with the second text, is handed to [process] and the text is
    written to the child. *)
Theorem superseded_call_is_dropped s c1 s1 p1 t1 es s1' c2 s2 p2 :
  reachable s ->
  parse c1 s = (s1, p1) ->
  timeout s1 = Some t1 ->
  Forall child_event es -> run s1 es = Some s1' ->
  parse c2 s1' = (s2, p2) ->
  promise_state s1' p1 = Some Pending
  /\ (t1 ∈ timers s1')
  /\ promise_state s2 p1 = Some (Rejected NoPayload)
  /\ (t1 ∉ timers s2)
  /\ top s2 = Some {| promise := p2; contents := c2 |}
  /\ p1 <> p2
  /\ (forall es' s3,
        run s2 es' = Some s3 ->
        promise_state s3 p1 = Some (Rejected NoPayload)
        /\ (forall sp, step s3 (Fire t1 sp) = None)
        /\ Forall (fun t => promise t <> p1) (processed s3)
        /\ Forall (fun c => promise (task c) <> p1) (children s3))
  /\ (forall t2,
        timeout s2 = Some t2 ->
        exists s3,
          step s2 (Fire t2 (Spawned Delivered)) = Some s3
          /\ processed s3 = processed s ++ [{| promise := p2; contents := c2 |}]
          /\ children s3 !! length (children s2)
             = Some {| task := {| promise := p2; contents := c2 |};
                       result := SQFLint.new_ParseInfo;
                       stdin := [StdinWrite c2; StdinEnd];
                       killed := false; closed := false |}).
Proof.
  intros Hreach Hcall1 Hto1 Hev Hrun Hcall2.
  pose proof (reachable_inv s Hreach) as Hinv.
  destruct (parse_spec c1 s Hinv)
    as (Hp1 & Htop1 & Hto1' & Htm1 & Hnx1 & Hlen1 & Hpend1 & Hch1 & Hpr1 & _).
  rewrite Hcall1 in *. cbn [fst snd] in *. subst p1.
  rewrite Hto1 in Hto1'. injection Hto1' as ->.
  assert (Hinv1 : inv s1).
  { pose proof (inv_parse c1 s Hinv) as H. by rewrite Hcall1 in H. }
  (* the events of the children leave the scheduler as the first call left it *)
  pose proof (child_run_frame es s1 s1' Hev Hrun) as Hframe.
  destruct Hframe as (Ftop & Ftm & Fnx & Fpr & Flen).
  assert (Hinv1' : inv s1') by (by eapply inv_run).
  pose proof Hinv1' as (Hc' & Hp' & _ & Ht').
  unfold floor in Hc', Hp'. rewrite Ftop, Htop1 in Hc', Hp', Ht'. cbn [promise] in *.
  destruct Ht' as (_ & Hpend' & _).
  destruct (parse_spec c2 s1' Hinv1')
    as (Hp2 & Htop2 & Hto2 & Htm2 & Hnx2 & Hlen2 & Hpend2 & Hch2 & Hpr2 & _ & Hold).
  rewrite Hcall2 in *. cbn [fst snd] in *.
  assert (Hinv2 : inv s2).
  { pose proof (inv_parse c2 s1' Hinv1') as H. by rewrite Hcall2 in H. }
  assert (Hrej : promises s2 !! length (promises s) = Some (Rejected NoPayload)).
  { rewrite Hold by lia. rewrite Ftop, Htop1. cbn [promise].
    by rewrite decide_True. }
  assert (Hlt : length (promises s) < floor s2).
  { unfold floor. rewrite Htop2. cbn [promise]. lia. }
  split; [exact Hpend'|]. split; [rewrite Ftm, Htm1; by apply list_elem_of_singleton|].
  split; [exact Hrej|]. split.
  { rewrite Htm2, Fnx, Hnx1. intros Hin. apply list_elem_of_singleton in Hin. lia. }
  split; [by rewrite Htop2, Hp2|]. split; [lia|]. split.
  - intros es' s3 Hrun3.
    split; [by eapply (run_settled es' s2 s3)|]. split; [|split].
    + intros sp. apply cancelled_never_fires.
      eapply (cancelled_run _ es' s2 s3); [done| |done].
      split; [lia|]. rewrite Htm2, Fnx, Hnx1. intros Hin.
      apply list_elem_of_singleton in Hin. lia.
    + eapply (unprocessed_run _ es' s2 s3); [done| |done].
      split; [done|]. rewrite Hpr2. eapply Forall_impl; [exact Hp'|].
      simpl. intros; lia.
    + eapply (childless_run _ es' s2 s3); [done| |done].
      split; [done|]. rewrite Hch2. eapply Forall_impl; [exact Hc'|].
      simpl. intros; lia.
  - intros t2 Hto2'. rewrite Hto2 in Hto2'. injection Hto2' as <-.
    destruct (fire_spawned s2 (next_timer s1') _ Delivered Hinv2 Htop2)
      as (s3 & Hs3 & _ & _ & _ & _ & Hch3 & Hpr3 & _).
    { rewrite Htm2. by apply list_elem_of_singleton. }
    exists s3. split; [done|]. split.
    + rewrite Hpr3, Hpr2, Fpr, Hpr1, Hp2. done.
    + rewrite Hch3, lookup_app_r by lia. rewrite Nat.sub_diag. cbn.
      unfold spawned. cbn. by rewrite Hp2.
Qed.

(** C4. For every run whose child is launched and closes with a
    non-zero exit status (after any events but an [error] of that
    child), the close event fulfils the run's promise, which is not
    rejected, with the [ParseInfo] accumulated from the chunks the child
    emitted, and the non-zero status is only logged. *)
Theorem nonzero_exit_resolves s t tk d code :
  reachable s -> top s = Some tk -> t ∈ timers s ->
  nonzero code = true ->
  let k := length (children s) in
  exists s1,
    step s (Fire t (Spawned d)) = Some s1
    /\ forall es s2,
         Forall (quiet k) es -> run s1 es = Some s2 ->
         exists s3,
           step s2 (Close k code) = Some s3
           /\ promise_state s3 (promise tk) = Some (Fulfilled k)
           /\ fulfilled_with s3 (promise tk)
              = Some (accumulate JSON_parse SQFLint.new_ParseInfo (chunks_of k es))
           /\ log s3
              = log s2 ++ ["SQFLint: Failed to run sqflint. Do you have java installed?"].
Proof.
  intros Hreach Etop Hin Hcode k.
  pose proof (reachable_inv s Hreach) as Hinv.
  destruct (launched_running s t tk d Hinv Etop Hin) as (s1 & Hs1 & Hr & _).
  exists s1. split; [done|]. intros es s2 Hq Hrun.
  assert (Hinv1 : inv s1) by (by eapply inv_step).
  destruct (run_until_close s1 k tk es s2 code Hinv1 Hr Hq Hrun)
    as (_ & s3 & H1 & H2 & H3 & H4).
  exists s3. rewrite Hcode in H4. done.
Qed.

(** C5, amended. For every run in which writing the source text to the
    child's input fails, the child is killed and the failure is logged,
    but the promise is not rejected by it: the promise stays pending,
    and the close event of the killed child fulfils it with the
    [ParseInfo] accumulated so far. *)
Theorem write_failure_kills_and_resolves s t tk d ex :
  reachable s -> top s = Some tk -> t ∈ timers s ->
  d = WriteThrows ex \/ d = EndThrows ex ->
  let k := length (children s) in
  exists s1 c,
    step s (Fire t (Spawned d)) = Some s1
    /\ children s1 !! k = Some c /\ task c = tk /\ killed c = true
    /\ log s1 = log s ++ [("SQFLint: Failed to contact the sqflint. Ex: " ++ ex)%string]
    /\ promise_state s1 (promise tk) = Some Pending
    /\ forall es s2 code,
         Forall (quiet k) es -> run s1 es = Some s2 ->
         promise_state s2 (promise tk) = Some Pending
         /\ exists s3,
              step s2 (Close k code) = Some s3
              /\ promise_state s3 (promise tk) = Some (Fulfilled k)
              /\ fulfilled_with s3 (promise tk)
                 = Some (accumulate JSON_parse SQFLint.new_ParseInfo (chunks_of k es)).
Proof.
  intros Hreach Etop Hin Hd k.
  pose proof (reachable_inv s Hreach) as Hinv.
  destruct (launched_running s t tk d Hinv Etop Hin) as (s1 & Hs1 & Hr & Hk & Hsame & Hlog).
  assert (Hinv1 : inv s1) by (by eapply inv_step).
  exists s1, (spawned tk d). split; [done|]. split; [done|]. split; [done|].
  split; [by destruct Hd as [-> | ->]|].
  split; [rewrite Hlog; by destruct Hd as [-> | ->]|].
  split.
  { destruct Hr as (c & _ & _ & _ & _ & Hpend). exact Hpend. }
  intros es s2 code Hq Hrun.
  destruct (run_until_close s1 k tk es s2 code Hinv1 Hr Hq Hrun)
    as (Hpend & s3 & H1 & H2 & H3 & _).
  split; [done|]. by exists s3.
Qed.

(** C6. For every run in which the child fails to launch, the promise is
    rejected at once with the launch-failure text and stays rejected;
    no [ParseInfo] is created and nothing is logged, and no child, then
    or later, holds the promise: the decoder never works for this
    run, and the caller never gets a [ParseInfo]. *)
Theorem launch_failure_rejects s t tk :
  reachable s -> top s = Some tk -> t ∈ timers s ->
  exists s1,
    step s (Fire t NoChild) = Some s1
    /\ promise_state s1 (promise tk)
       = Some (Rejected (LaunchFailure "Failed to launch java process."))
    /\ children s1 = children s /\ log s1 = log s
    /\ forall es s2,
         run s1 es = Some s2 ->
         promise_state s2 (promise tk)
         = Some (Rejected (LaunchFailure "Failed to launch java process."))
         /\ fulfilled_with s2 (promise tk) = None
         /\ Forall (fun c => promise (task c) <> promise tk) (children s2).
Proof.
  intros Hreach Etop Hin.
  pose proof (reachable_inv s Hreach) as Hinv.
  destruct (fire_armed s t tk Hinv Etop Hin) as (_ & _ & Hlen & _).
  destruct (fire_no_child s t tk Hinv Etop Hin)
    as (s1 & Hs1 & Htop1 & _ & _ & Hlen1 & Hrej & _ & Hch & _ & Hlog & _).
  assert (Hinv1 : inv s1) by (by eapply inv_step).
  exists s1. split; [done|]. split; [done|]. split; [done|]. split; [done|].
  intros es s2 Hrun.
  assert (Hrej2 : promises s2 !! promise tk
                  = Some (Rejected (LaunchFailure "Failed to launch java process.")))
    by (by eapply (run_settled es s1 s2)).
  split; [done|]. split.
  - unfold fulfilled_with. by rewrite Hrej2.
  - eapply (childless_run _ es s1 s2); [done| |done].
    split.
    + unfold floor. rewrite Htop1, Hlen1. lia.
    + rewrite Hch. destruct Hinv as (Hc & _).
      unfold floor in Hc. rewrite Etop in Hc.
      eapply Forall_impl; [exact Hc|]. simpl. intros; lia.
Qed.

End ClientFacts.

(** ** The claims at sample inputs *)

(** The reference decoder has an answer on every line of the chunks that
    the sample inputs are made of. *)
Lemma sample_lines_decoded :
  Forall (fun line => is_Some (JSON.decode_line line))
    (flat_map (JS.split JS.LF)
       [Sample.scenario_chunk; Sample.broken_chunk; Cases.misshapen_chunk;
        Sample.warning_line; Sample.empty_error_line; Sample.variable_line;
        Cases.first_part; Cases.second_part;
        (Cases.first_part ++ Cases.second_part)%string; Cases.line_ends]).
Proof. apply (bool_decide_unpack _). vm_compute. exact I. Qed.

Example scenario_of_the_specification :
  onData JSON.decode {| info := SQFLint.new_ParseInfo; console := [] |} Sample.scenario_chunk
  = {| info :=
         {| SQFLint.errors :=
              [{| SQFLint.message := Some "bad op";
                  SQFLint.range :=
                    Some {| SQFLint.start := {| SQFLint.line := Num 2; SQFLint.character := Num 4 |};
                            SQFLint.end_ := {| SQFLint.line := Num 2; SQFLint.character := Num 8 |} |} |}];
            SQFLint.warnings := [];
            SQFLint.variables :=
              [{| SQFLint.name := Some "_x"; SQFLint.ident := None;
                  SQFLint.comment := Some "note";
                  SQFLint.definitions :=
                    [{| SQFLint.start := {| SQFLint.line := Num 0; SQFLint.character := Num 0 |};
                        SQFLint.end_ := {| SQFLint.line := Num 0; SQFLint.character := Num 2 |} |}];
                  SQFLint.usage := [] |}] |};
       console := [] |}.
Proof. vm_compute. reflexivity. Qed.

Lemma reachable_waiting : reachable JSON.decode Sample.waiting.
Proof. exists [Call "x = 1;"]. vm_compute. reflexivity. Defined.

Lemma reachable_in_flight : reachable JSON.decode Sample.in_flight.
Proof. exists [Call "x = 1;"; Fire 0 (Spawned Delivered)]. vm_compute. reflexivity. Defined.

Lemma parsePosition_ordered_iff_witness : ordered (parsePosition (raw 3 3 5 8)) = true.
Proof. apply (proj2 (parsePosition_ordered_iff 3 3 5 8)). right. split; [reflexivity|lia]. Defined.

(** The promise of the call with ["a"] is rejected and ["b"] waits. *)
Lemma superseded_call_is_dropped_witness :
  promise_state Sample.superseded 1 = Some (Rejected NoPayload)
  /\ top Sample.superseded = Some {| promise := 2; contents := "b" |}
  /\ (1 ∉ timers Sample.superseded).
Proof.
  pose (s2 := Sample.superseded).
  pose (s1 := fst (parse "a" Sample.in_flight)).
  pose (s1' := Sample.state_after
                 [Call "x = 1;"; Fire 0 (Spawned Delivered);
                  Call "a"; Data 0 Sample.broken_chunk]).
  destruct (superseded_call_is_dropped JSON.decode Sample.in_flight "a" s1 1 1
              [Data 0 Sample.broken_chunk] s1' "b" s2 2)
    as (_ & _ & H3 & H4 & H5 & _).
  - exact reachable_in_flight.
  - vm_compute. reflexivity.
  - vm_compute. reflexivity.
  - repeat constructor.
  - vm_compute. reflexivity.
  - vm_compute. reflexivity.
  - exact (conj H3 (conj H5 H4)).
Defined.



(** A launched run emits one warning line and exits with status 1. *)
Lemma nonzero_exit_resolves_witness :
  exists s3,
    run JSON.decode init
      [Call "x = 1;"; Fire 0 (Spawned Delivered);
       Data 0 (Sample.warning_line ++ Sample.nl); Close 0 (Some 1%Z)] = Some s3
    /\ promise_state s3 0 = Some (Fulfilled 0)
    /\ SQFLint.warnings <$> fulfilled_with s3 0
       = Some [{| SQFLint.message := Some "unused";
                  SQFLint.range :=
                    Some {| SQFLint.start := {| SQFLint.line := Num 0; SQFLint.character := Num 0 |};
                            SQFLint.end_ := {| SQFLint.line := Num 0; SQFLint.character := Num 3 |} |} |}].
Proof.
  pose proof (nonzero_exit_resolves JSON.decode Sample.waiting 0
                {| promise := 0; contents := "x = 1;" |} Delivered (Some 1%Z)
                reachable_waiting eq_refl) as H.
  cbv zeta in H. change (length (children Sample.waiting)) with 0 in H.
  destruct H as (s1 & Hs1 & Hrest).
  - by apply list_elem_of_singleton.
  - reflexivity.
  - pose (s2 := Sample.state_after
                  [Call "x = 1;"; Fire 0 (Spawned Delivered);
                   Data 0 (Sample.warning_line ++ Sample.nl)]).
    assert (E1 : s1 = Sample.in_flight)
      by (vm_compute in Hs1; injection Hs1 as <-; reflexivity).
    subst s1.
    destruct (Hrest [Data 0 (Sample.warning_line ++ Sample.nl)] s2)
      as (s3 & Hs3 & Hp & Hf & _).
    + repeat constructor.
    + vm_compute. reflexivity.
    + cbn [promise] in Hp, Hf.
      exists s3. split; [|split; [exact Hp|]].
      * change (run JSON.decode init
                  ([Call "x = 1;"; Fire 0 (Spawned Delivered);
                    Data 0 (Sample.warning_line ++ Sample.nl)] ++ [Close 0 (Some 1%Z)])
                = Some s3).
        rewrite run_app.
        replace (run JSON.decode init
                   [Call "x = 1;"; Fire 0 (Spawned Delivered);
                    Data 0 (Sample.warning_line ++ Sample.nl)])
          with (Some s2) by (vm_compute; reflexivity).
        cbn [run]. by rewrite Hs3.
      * rewrite Hf. vm_compute. reflexivity.
Defined.

(** C5, as the spec has it, fails: the write raises, the child is killed
    and the promise is left pending; the close event of the child, ended by
    the signal, then fulfils the promise with the empty [ParseInfo]. *)
Lemma write_failure_is_not_rejected :
  exists s1 s2 c,
    run JSON.decode init [Call "x = 1;"; Fire 0 (Spawned (WriteThrows "EPIPE"))] = Some s1
    /\ children s1 !! 0 = Some c /\ killed c = true /\ stdin c = []
    /\ promise_state s1 0 = Some Pending
    /\ step JSON.decode s1 (Close 0 None) = Some s2
    /\ promise_state s2 0 = Some (Fulfilled 0)
    /\ fulfilled_with s2 0 = Some SQFLint.new_ParseInfo
    /\ (forall r, promise_state s2 0 <> Some (Rejected r)).
Proof.
  eexists _, _, _. split; [vm_compute; reflexivity|].
  repeat split; try (vm_compute; reflexivity).
  intros r. vm_compute. discriminate.
Qed.

(** The write raises in the state with a call waiting. *)
Lemma write_failure_kills_and_resolves_witness :
  exists s1 s3 c,
    step JSON.decode Sample.waiting (Fire 0 (Spawned (EndThrows "EPIPE"))) = Some s1
    /\ children s1 !! 0 = Some c /\ killed c = true /\ stdin c = [StdinWrite "x = 1;"]
    /\ promise_state s1 0 = Some Pending
    /\ step JSON.decode s1 (Close 0 None) = Some s3
    /\ promise_state s3 0 = Some (Fulfilled 0).
Proof.
  pose proof (write_failure_kills_and_resolves JSON.decode Sample.waiting 0
                {| promise := 0; contents := "x = 1;" |} (EndThrows "EPIPE") "EPIPE"
                reachable_waiting eq_refl) as H.
  cbv zeta in H. change (length (children Sample.waiting)) with 0 in H.
  destruct H as (s1 & c & Hs1 & Hk & Htk & Hkill & _ & Hpend & Hrest).
  - by apply list_elem_of_singleton.
  - by right.
  - destruct (Hrest [] s1 None) as (_ & s3 & Hs3 & Hp & _); [constructor|reflexivity|].
    cbn [promise] in Hp, Hpend.
    exists s1, s3, c. repeat split; try done.
    assert (E : Some c = Some (spawned {| promise := 0; contents := "x = 1;" |} (EndThrows "EPIPE"))).
    { rewrite <- Hk. vm_compute in Hs1. injection Hs1 as <-. reflexivity. }
    injection E as ->. reflexivity.
Defined.

(** The launch fails in the state with a call waiting. *)
Lemma launch_failure_rejects_witness :
  exists s1,
    step JSON.decode Sample.waiting (Fire 0 NoChild) = Some s1
    /\ promise_state s1 0 = Some (Rejected (LaunchFailure "Failed to launch java process."))
    /\ children s1 = [].
Proof.
  destruct (launch_failure_rejects JSON.decode Sample.waiting 0
              {| promise := 0; contents := "x = 1;" |} reachable_waiting eq_refl)
    as (s1 & Hs1 & Hrej & Hch & _).
  - by apply list_elem_of_singleton.
  - cbn [promise] in Hrej. exists s1. repeat split; done.
Defined.

(** C8, as the spec has it, fails: the record has an [error] field, the
    empty string, and the text of the diagnostic is its [message] field. *)
Lemma empty_error_field_is_skipped :
  decodes JSON.decode Sample.empty_error_line Sample.empty_error_record
  /\ type_is Sample.empty_error_record "error" = true
  /\ RawMessage.error Sample.empty_error_record = Some ""
  /\ RawMessage.message Sample.empty_error_record = Some "fallback"
  /\ SQFLint.errors (info (processLine JSON.decode Sample.fresh Sample.empty_error_line))
     = [{| SQFLint.message := Some "fallback"; SQFLint.range := None |}]
  /\ SQFLint.message
       <$> SQFLint.errors (info (processLine JSON.decode Sample.fresh Sample.empty_error_line))
     <> [RawMessage.error Sample.empty_error_record].
Proof.
  repeat split; try (vm_compute; reflexivity). vm_compute. discriminate.
Qed.

(** An error line with a non-empty [error] field and one with only a
    [message] field. *)
Lemma diagnostic_text_witness :
  exists diag,
    SQFLint.errors
      (info (processLine JSON.decode
               {| info := SQFLint.new_ParseInfo; console := [] |} Sample.error_line))
    = [diag]
    /\ SQFLint.message diag = Some "bad op".
Proof.
  destruct (diagnostic_text JSON.decode
              {| info := SQFLint.new_ParseInfo; console := [] |}
              Sample.error_line (Sample.record_of Sample.error_line))
    as (diag & He & _ & Ht).
  - split; vm_compute; reflexivity.
  - left. vm_compute. reflexivity.
  - exists diag. split; [apply He; vm_compute; reflexivity|exact Ht].
Defined.

(** A variable line without [definitions]. *)
Lemma variable_with_absent_fields_witness :
  exists v,
    processLine JSON.decode
      {| info := SQFLint.new_ParseInfo; console := [] |} Sample.variable_line
    = {| info := {| SQFLint.errors := []; SQFLint.warnings := [];
                    SQFLint.variables := [v] |};
         console := [] |}
    /\ SQFLint.name v = Some "_x"
    /\ SQFLint.comment v = Some "note"
    /\ SQFLint.definitions v = []
    /\ SQFLint.usage v
       = [{| SQFLint.start := {| SQFLint.line := Num 0; SQFLint.character := Num 0 |};
             SQFLint.end_ := {| SQFLint.line := Num 0; SQFLint.character := Num 2 |} |}].
Proof.
  destruct (variable_with_absent_fields JSON.decode
              {| info := SQFLint.new_ParseInfo; console := [] |}
              Sample.variable_line (Sample.record_of Sample.variable_line))
    as (v & Hi & Hc & Hn & Hcm & Hd & _ & _ & Hu).
  - split; vm_compute; reflexivity.
  - vm_compute. reflexivity.
  - exists v. split; [|split; [exact Hn|split; [exact Hcm|split]]].
    + destruct (processLine JSON.decode _ Sample.variable_line) as [i c].
      cbn [info console] in Hi, Hc. by rewrite Hi, Hc.
    + apply Hd. reflexivity.
    + apply (Hu _ eq_refl).
Defined.

(** * Further properties *)

(** ** Strings, further *)

Module JSMore.
Import JS JSFacts.

Lemma append_cons c (a b : string) : (String c a ++ b)%string = String c (a ++ b).
Proof. reflexivity. Qed.

Lemma append_nil_l (b : string) : (EmptyString ++ b)%string = b.
Proof. reflexivity. Qed.

Lemma append_assoc (a b c : string) : ((a ++ b) ++ c = a ++ (b ++ c))%string.
Proof.
  induction a as [|x a IH]; [reflexivity|]. by rewrite !append_cons, IH.
Qed.

Lemma append_nil_r (a : string) : (a ++ "")%string = a.
Proof. induction a as [|x a IH]; [reflexivity|]. by rewrite append_cons, IH. Qed.

Lemma trimEnd_cons c s : is_ws c = false -> trimEnd (String c s) = String c (trimEnd s).
Proof. intros H. simpl. destruct (trimEnd s); [by rewrite H|reflexivity]. Qed.

Lemma trimStart_trimEnd s : trimStart (trimEnd s) = trimEnd (trimStart s).
Proof.
  induction s as [|c s IH]; [reflexivity|].
  destruct (is_ws c) eqn:W.
  - cbn [trimStart]. rewrite W. cbn [trimEnd].
    destruct (trimEnd s) as [|c' r] eqn:E.
    + rewrite W. cbn [trimStart]. rewrite <- IH. reflexivity.
    + cbn [trimStart]. rewrite W. rewrite <- IH. reflexivity.
  - cbn [trimStart]. rewrite W. rewrite (trimEnd_cons c s W).
    cbn [trimStart]. by rewrite W.
Qed.

Lemma trim_trimEnd s : trim (trimEnd s) = trim s.
Proof. unfold trim. by rewrite trimStart_trimEnd, trimEnd_idem. Qed.

Lemma trimEnd_fixed_nonempty a b :
  trimEnd b = b -> b <> EmptyString -> trimEnd (a ++ b) = (a ++ b)%string.
Proof.
  intros Hb Hne. induction a as [|c a IH]; [exact Hb|].
  rewrite append_cons. cbn [trimEnd]. rewrite IH.
  destruct (a ++ b)%string eqn:E; [|reflexivity].
  destruct a; [by rewrite append_nil_l in E|by rewrite append_cons in E].
Qed.

Lemma trim_fixed_parts s : trim s = s -> head_ok s /\ trimEnd s = s.
Proof.
  intros H. split.
  - rewrite <- H. apply trimEnd_head_ok, trimStart_head_ok.
  - rewrite <- H at 1. unfold trim. rewrite trimEnd_idem. exact H.
Qed.

Lemma trim_of_parts s : head_ok s -> trimEnd s = s -> trim s = s.
Proof. intros H1 H2. unfold trim. by rewrite (trimStart_fixed s H1). Qed.

Lemma substring_all s : substring 0 (String.length s) s = s.
Proof. induction s as [|c s IH]; simpl; [reflexivity|]. by rewrite IH. Qed.

Lemma substring_prefix a b : substring 0 (String.length a) (a ++ b) = a.
Proof.
  induction a as [|c a IH].
  - rewrite append_nil_l. destruct b; reflexivity.
  - rewrite append_cons. simpl. by rewrite IH.
Qed.

Lemma length_append a b : String.length (a ++ b) = String.length a + String.length b.
Proof.
  induction a as [|c a IH]; [reflexivity|]. rewrite append_cons. simpl. by rewrite IH.
Qed.

(** [s.substr(2)] of a string of at least two code units drops them. *)
Lemma substr_drop2 x y s : substr (String x (String y s)) 2 None = s.
Proof.
  unfold substr, len. cbn [String.length].
  replace (2 <? 0)%Z with false by reflexivity.
  rewrite Z.min_l by lia.
  replace (Z.to_nat 2) with 2 by reflexivity.
  replace (Z.to_nat (Z.of_nat (S (S (String.length s))) - 2)) with (String.length s) by lia.
  cbn [substring]. apply substring_all.
Qed.

Lemma substr_drop1 x s : substr (String x s) 1 None = s.
Proof.
  unfold substr, len. cbn [String.length].
  replace (1 <? 0)%Z with false by reflexivity.
  rewrite Z.min_l by lia.
  replace (Z.to_nat 1) with 1 by reflexivity.
  replace (Z.to_nat (Z.of_nat (S (String.length s)) - 1)) with (String.length s) by lia.
  cbn [substring]. apply substring_all.
Qed.

(** [s.substr(2, s.length - 4)] keeps what lies between the first two and
    the last two code units. *)
Lemma substr_inner x y b u v :
  let s := String x (String y (b ++ String u (String v EmptyString))) in
  substr s 2 (Some (len s - 4)%Z) = b.
Proof.
  intros s. unfold substr.
  assert (Hlen : len s = (Z.of_nat (String.length b) + 4)%Z).
  { unfold s, len. cbn [String.length]. rewrite length_append. cbn [String.length]. lia. }
  rewrite Hlen.
  replace (2 <? 0)%Z with false by reflexivity.
  rewrite Z.min_l by lia.
  replace (Z.of_nat (String.length b) + 4 - 4)%Z with (Z.of_nat (String.length b)) by lia.
  rewrite Z.max_l by lia. rewrite Z.min_l by lia.
  replace (Z.to_nat 2) with 2 by reflexivity. rewrite Nat2Z.id.
  unfold s. cbn [substring]. apply substring_prefix.
Qed.

Lemma string_prefix_cons a p b s :
  String.prefix (String a p) (String b s)
  = if ascii_dec a b then String.prefix p s else false.
Proof. reflexivity. Qed.

Lemma string_prefix_nil s : String.prefix EmptyString s = true.
Proof. by destruct s. Qed.

End JSMore.

Section CommentFacts.
Import JS JSFacts JSMore.

Lemma parseComment_line_trimmed cl : trim (parseComment_line cl) = parseComment_line cl.
Proof.
  unfold parseComment_line. destruct (indexOf (trim cl) "*" =? 0)%Z; apply trim_idem.
Qed.

Lemma truthy_cons c s : truthy (String c s) = true.
Proof. reflexivity. Qed.

Lemma tidy_parts l : tidy l -> head_ok l /\ trimEnd l = l /\ l <> EmptyString.
Proof.
  intros [Ht Hl]. destruct (trim_fixed_parts l Hl) as [H1 H2].
  repeat split; try done. intros ->. discriminate.
Qed.

(** Joining tidy lines gives a string with no white space at its ends. *)
Lemma join_tidy sep lines :
  Forall tidy lines ->
  head_ok (join sep lines) /\ trimEnd (join sep lines) = join sep lines
  /\ (lines <> [] -> join sep lines <> EmptyString).
Proof.
  induction 1 as [|l ls Hl Hls IH]; [done|].
  destruct (tidy_parts l Hl) as (Hh & He & Hne).
  destruct ls as [|l' ls].
  - cbn. done.
  - change (join sep (l :: l' :: ls)) with (l ++ sep ++ join sep (l' :: ls))%string.
    destruct IH as (_ & IHe & IHn). specialize (IHn ltac:(done)).
    split; [|split].
    + destruct l as [|c l]; [done|]. rewrite append_cons. exact Hh.
    + rewrite <- append_assoc. by apply trimEnd_fixed_nonempty.
    + intros _. destruct l as [|c l]; [done|]. by rewrite append_cons.
Qed.

Lemma join_tidy_trim sep lines : Forall tidy lines -> trim (join sep lines) = join sep lines.
Proof.
  intros H. destruct (join_tidy sep lines H) as (H1 & H2 & _). by apply trim_of_parts.
Qed.

Lemma prefix_block_not_line s :
  String.prefix "/*" s = true -> String.prefix "//" s = false.
Proof.
  destruct s as [|a [|b s]]; [discriminate| |].
  - rewrite !string_prefix_cons. by destruct (ascii_dec "/" a).
  - rewrite !string_prefix_cons, !string_prefix_nil.
    destruct (ascii_dec "/" a); [|done].
    destruct (ascii_dec "*" b) as [<-|]; [|done]. intros _.
    by destruct (ascii_dec "/" "*").
Qed.

(** X1. The result of [parseComment] has no white space at either end. *)
Theorem parseComment_result_trimmed comment r :
  parseComment comment = Some r -> trim r = r.
Proof.
  destruct comment as [c|]; [|discriminate].
  destruct (truthy c) eqn:T.
  - by apply parseComment_trimmed.
  - unfold parseComment. rewrite T. intros [= <-].
    by rewrite (truthy_false c T).
Qed.

Lemma parseComment_line_comment_cons t :
  String.prefix "/*" (trim t) = false ->
  parseComment (Some (String "/" (String "/" t))) = Some (trim t).
Proof.
  intros Hb.
  assert (Ht : trim (String "/" (String "/" t)) = String "/" (String "/" (trimEnd t))).
  { unfold trim. cbn [trimStart].
    replace (is_ws "/") with false by reflexivity.
    by rewrite !trimEnd_cons. }
  unfold parseComment. rewrite truthy_cons. cbv zeta. rewrite Ht.
  rewrite (indexOf_zero (String "/" (String "/" (trimEnd t))) "//").
  replace (String.prefix "//" (String "/" (String "/" (trimEnd t)))) with true
    by (by rewrite !string_prefix_cons, string_prefix_nil).
  cbv iota. rewrite substr_drop2, trim_trimEnd, indexOf_zero, Hb. reflexivity.
Qed.

(** X2. A line comment yields its text, trimmed. *)
Theorem parseComment_line_comment t :
  String.prefix "/*" (trim t) = false ->
  parseComment (Some ("//" ++ t)%string) = Some (trim t).
Proof. apply parseComment_line_comment_cons. Qed.

Lemma split_not_nil sep s : split sep s <> [].
Proof.
  destruct s as [|c s]; [done|]. cbn [split].
  destruct (Ascii.eqb c sep); [done|]. by destruct (split sep s).
Qed.

Lemma one_line_iff s : one_line s <-> has_LF s = false.
Proof.
  unfold one_line. induction s as [|c s IH]; [done|].
  cbn [split has_LF]. destruct (Ascii.eqb c LF); [done|].
  rewrite orb_false_l, <- IH.
  destruct (split LF s) as [|l ls] eqn:E; [by destruct (split_not_nil LF s)|].
  split; intros H; by simplify_eq.
Qed.

Lemma split_LF_free s : Forall (fun l => has_LF l = false) (split LF s).
Proof.
  induction s as [|c s IH]; [by repeat constructor|].
  cbn [split]. destruct (Ascii.eqb c LF) eqn:E; [by constructor|].
  destruct (split LF s) as [|l ls]; [by repeat constructor; cbn; rewrite E|].
  inversion IH as [|? ? Hl Hls]; subst. constructor; [|done].
  cbn. by rewrite E.
Qed.

Lemma has_LF_trimStart s : has_LF s = false -> has_LF (trimStart s) = false.
Proof.
  induction s as [|c s IH]; [done|]. cbn [trimStart].
  destruct (is_ws c); [|done]. cbn [has_LF]. intros [_ H]%orb_false_elim. auto.
Qed.

Lemma has_LF_trimEnd s : has_LF s = false -> has_LF (trimEnd s) = false.
Proof.
  induction s as [|c s IH]; [done|]. cbn [has_LF]. intros [Hc H]%orb_false_elim.
  specialize (IH H). cbn [trimEnd].
  destruct (trimEnd s) as [|c' r].
  - destruct (is_ws c); [done|]. cbn. by rewrite Hc.
  - cbn [has_LF] in *. by rewrite Hc.
Qed.

Lemma has_LF_trim s : has_LF s = false -> has_LF (trim s) = false.
Proof. intros H. by apply has_LF_trimEnd, has_LF_trimStart. Qed.

Lemma has_LF_substring n m s : has_LF s = false -> has_LF (substring n m s) = false.
Proof.
  revert n m. induction s as [|c s IH]; intros n m H.
  - by destruct n, m.
  - cbn [has_LF] in H. apply orb_false_elim in H as [Hc H].
    destruct n as [|n]; cbn [substring].
    + destruct m as [|m]; [done|]. cbn [has_LF]. by rewrite Hc, IH.
    + by apply IH.
Qed.

Lemma has_LF_parseComment_line cl :
  has_LF cl = false -> has_LF (parseComment_line cl) = false.
Proof.
  intros H. unfold parseComment_line.
  destruct (indexOf (trim cl) "*" =? 0)%Z.
  - apply has_LF_trim. unfold substr. by apply has_LF_substring, has_LF_trim.
  - by apply has_LF_trim.
Qed.

(** X3. A block comment is normalized line by line. The body is the
    trimmed comment without its first two and its last two characters,
    trimmed. The result is the lines of the body, each trimmed and
    relieved of one leading star with the white space after it, the empty
    ones left out, joined with CR LF: the final [trim] changes nothing.
    Every line kept is non-empty, has no white space at either end and
    holds no line feed. *)
Theorem parseComment_block_lines c :
  String.prefix "/*" (trim c) = true ->
  let body := trim (substr (trim c) 2 (Some (len (trim c) - 4)%Z)) in
  let lines :=
    filter (fun l => Is_true (truthy l)) (map parseComment_line (split LF body)) in
  parseComment (Some c) = Some (join CRLF lines)
  /\ Forall (fun l => tidy l /\ one_line l) lines.
Proof.
  intros Hb body lines.
  assert (Hl : Forall (fun l => tidy l /\ one_line l) lines).
  { apply Forall_forall. intros l Hl.
    apply list_elem_of_filter in Hl as [Hl1 Hl2].
    apply list_elem_of_fmap in Hl2 as (cl & -> & Hcl).
    split; [split; [by apply Is_true_true|apply parseComment_line_trimmed]|].
    apply one_line_iff, has_LF_parseComment_line.
    pose proof (split_LF_free body) as HF.
    rewrite Forall_forall in HF. by apply HF. }
  split; [|exact Hl].
  assert (T : truthy c = true).
  { destruct c; [discriminate|reflexivity]. }
  unfold parseComment. rewrite T.
  rewrite (indexOf_zero (trim c) "//"), (prefix_block_not_line _ Hb).
  rewrite (indexOf_zero (trim c) "/*"), Hb.
  f_equal. apply join_tidy_trim.
  eapply Forall_impl; [exact Hl|]. by intros l [? _].
Qed.

Lemma parseComment_block_body b x y :
  is_ws y = false ->
  parseComment (Some ("/*" ++ b ++ String x (String y EmptyString))%string)
  = Some (trim (join CRLF
                  (filter (fun i => Is_true (truthy i))
                     (map parseComment_line (split LF (trim b)))))).
Proof.
  intros Hy.
  set (c := ("/*" ++ b ++ String x (String y EmptyString))%string).
  assert (Hc : c = String "/" (String "*" (b ++ String x (String y EmptyString)))) by reflexivity.
  assert (Ht : trim c = c).
  { apply trim_of_parts; [by rewrite Hc|].
    replace c with (("/*" ++ b ++ String x EmptyString) ++ String y EmptyString)%string.
    - apply trimEnd_fixed_nonempty; [|done]. cbn. by rewrite Hy.
    - unfold c. by rewrite !append_assoc. }
  unfold parseComment. cbv zeta. rewrite Ht.
  replace (truthy c) with true by (rewrite Hc; reflexivity).
  rewrite (indexOf_zero c "//").
  replace (String.prefix "//" c) with false
    by (rewrite Hc; by rewrite !string_prefix_cons).
  cbv iota. rewrite (indexOf_zero c "/*").
  replace (String.prefix "/*" c) with true
    by (rewrite Hc; by rewrite !string_prefix_cons, string_prefix_nil).
  cbv iota. rewrite Hc. rewrite (substr_inner "/" "*" b x y). reflexivity.
Qed.

(** X4. The closing marker of a block comment is not checked. *)
Theorem parseComment_closing_unchecked b x y x' y' :
  is_ws y = false -> is_ws y' = false ->
  parseComment (Some ("/*" ++ b ++ String x (String y EmptyString))%string)
  = parseComment (Some ("/*" ++ b ++ String x' (String y' EmptyString))%string).
Proof. intros H H'. by rewrite !parseComment_block_body. Qed.

End CommentFacts.

(** ** Data model and Position Mapper, further *)

(** X5. [isLocal] tells whether the name begins with an underscore. *)
Theorem isLocal_iff_underscore v :
  (SQFLint.isLocal v = Some true <-> exists rest, SQFLint.name v = Some (String "_" rest))
  /\ (SQFLint.isLocal v = Some false
      <-> exists n, SQFLint.name v = Some n /\ String.prefix "_" n = false)
  /\ (SQFLint.isLocal v = None <-> SQFLint.name v = None).
Proof.
  unfold SQFLint.isLocal. destruct (SQFLint.name v) as [n|].
  - assert (E : String.eqb (substring 0 1 n) "_" = String.prefix "_" n).
    { destruct n as [|c n]; [reflexivity|].
      cbn [substring]. replace (substring 0 0 n) with EmptyString by (by destruct n).
      rewrite JSMore.string_prefix_cons, JSMore.string_prefix_nil.
      destruct (ascii_dec "_" c) as [<-|Hne]; [reflexivity|].
      apply String.eqb_neq. intros [= ->]. by apply Hne. }
    rewrite E. split; [|split].
    + split.
      * intros [= H]. destruct n as [|c n]; [discriminate|].
        rewrite JSMore.string_prefix_cons in H. destruct (ascii_dec "_" c) as [<-|]; [|discriminate].
        by exists n.
      * intros (rest & [= ->]). by rewrite JSMore.string_prefix_cons, JSMore.string_prefix_nil.
    + split.
      * intros [= H]. by exists n.
      * intros (n' & [= <-] & ->). reflexivity.
    + split; discriminate.
  - split; [|split]; split; try discriminate; try done.
    + intros (? & ?). discriminate.
    + intros (? & ? & _). discriminate.
Qed.

(** X6. The fields of a mapped range are numbers exactly when the raw
    record has two lines and two columns; elements after the second are
    not read. *)
Theorem parsePosition_located p :
  (located (parsePosition p) = true
   <-> 2 <= length (RawMessagePosition.line p)
      /\ 2 <= length (RawMessagePosition.column p))
  /\ (forall L1 L2 ls C1 C2 cs,
        RawMessagePosition.line p = L1 :: L2 :: ls ->
        RawMessagePosition.column p = C1 :: C2 :: cs ->
        parsePosition p = parsePosition (raw L1 L2 C1 C2)).
Proof.
  destruct p as [l c]. split.
  - unfold located, parsePosition, at_index. cbn.
    destruct l as [|L1 [|L2 ls]], c as [|C1 [|C2 cs]]; cbn; split;
      try discriminate; try (intros [H1 H2]; lia); try done; intros _; lia.
  - cbn. intros L1 L2 ls C1 C2 cs -> ->. reflexivity.
Qed.

Lemma ordered_parsePosition p : ordered (parsePosition p) = raw_ordered p.
Proof.
  destruct p as [l c]. unfold ordered, raw_ordered, Position_leb, parsePosition, at_index.
  destruct l as [|L1 [|L2 ls]];
    cbn [lookup list_lookup minus1 number_ltb number_eqb number_leb
         SQFLint.line SQFLint.character SQFLint.start SQFLint.end_
         RawMessagePosition.line RawMessagePosition.column];
    try reflexivity.
  replace (L1 - 1 <? L2 - 1)%Z with (L1 <? L2)%Z
    by (apply eq_iff_eq_true; rewrite !Z.ltb_lt; lia).
  replace (L1 - 1 =? L2 - 1)%Z with (L1 =? L2)%Z
    by (apply eq_iff_eq_true; rewrite !Z.eqb_eq; lia).
  destruct c as [|C1 [|C2 cs]];
    cbn [lookup list_lookup minus1 number_leb]; reflexivity.
Qed.

(** X7. A mapped range is ordered exactly when the raw position is, for
    arrays of any length: only the first two lines decide, and the first
    two columns when these lines are equal. *)
Theorem parsePosition_ordered_raw p : ordered (parsePosition p) = raw_ordered p.
Proof. apply ordered_parsePosition. Qed.

(** ** Stream Decoder, further *)

Section DecoderMore.

Variable JSON_parse : string -> Parsed.

Abbreviation processLine := (processLine JSON_parse).
Abbreviation onData := (onData JSON_parse).
Abbreviation decodes := (decodes JSON_parse).
Abbreviation malformed := (malformed JSON_parse).

Lemma split_nonempty sep s : JS.split sep s <> [].
Proof.
  induction s as [|c s IH]; cbn [JS.split]; [done|].
  destruct (Ascii.eqb c sep); [done|]. by destruct (JS.split sep s).
Qed.

Lemma split_append a b :
  JS.split JS.LF (a ++ String JS.LF b)%string = JS.split JS.LF a ++ JS.split JS.LF b.
Proof.
  induction a as [|c a IH].
  - rewrite JSMore.append_nil_l. reflexivity.
  - rewrite JSMore.append_cons. cbn [JS.split]. rewrite IH.
    destruct (Ascii.eqb c JS.LF); [reflexivity|].
    pose proof (split_nonempty JS.LF a) as Hne.
    by destruct (JS.split JS.LF a).
Qed.

Lemma blank_line_skipped d line :
  (JS.len (JS.strip_eol line) =? 0)%Z = true -> processLine d line = d.
Proof. intros H. unfold processLine. by rewrite H. Qed.

Lemma strip_eol_empty s : (JS.len (JS.strip_eol s) =? 0)%Z = true <-> JS.strip_eol s = EmptyString.
Proof.
  unfold JS.len. destruct (JS.strip_eol s); cbn; split; done.
Qed.

Lemma blank_split data :
  JS.strip_eol data = EmptyString ->
  Forall (fun l => JS.strip_eol l = EmptyString) (JS.split JS.LF data).
Proof.
  induction data as [|c s IH]; cbn [JS.split JS.strip_eol]; [by repeat constructor|].
  destruct (Ascii.eqb c JS.LF) eqn:ELF.
  - rewrite orb_true_r. intros H. constructor; [done|by apply IH].
  - rewrite orb_false_r. destruct (Ascii.eqb c JS.CR) eqn:ECR; [|discriminate].
    intros H. specialize (IH H).
    pose proof (split_nonempty JS.LF s) as Hne.
    destruct (JS.split JS.LF s) as [|l ls]; [done|].
    apply Forall_cons in IH as [Hl Hls]. constructor; [|done].
    cbn [JS.strip_eol]. by rewrite ECR.
Qed.

(** X8. A chunk of line ends only changes nothing. *)
Theorem onData_blank d data :
  (JS.len (JS.strip_eol data) =? 0)%Z = true -> onData d data = d.
Proof.
  intros H. apply strip_eol_empty in H. apply blank_split in H.
  rewrite onData_lines. induction H as [|l ls Hl Hls IH]; [done|].
  cbn [fold_left]. rewrite blank_line_skipped; [done|]. by apply strip_eol_empty.
Qed.

(** X9. Feeding two chunks cut at a line feed is feeding them joined. *)
Theorem onData_line_boundary d a b :
  onData d (a ++ String JS.LF b)%string = onData (onData d a) b.
Proof. by rewrite !onData_lines, split_append, fold_left_app. Qed.

Lemma classify_grows m i : grows i (classify m i).
Proof.
  unfold classify, grows.
  destruct (type_is m "error"); [cbn; repeat split; try done; by eexists|].
  destruct (type_is m "warning"); [cbn; repeat split; try done; by eexists|].
  destruct (type_is m "variable"); [cbn; repeat split; try done; by eexists|].
  done.
Qed.

Lemma grows_trans a b c : grows a b -> grows b c -> grows a c.
Proof. intros (H1 & H2 & H3) (K1 & K2 & K3). repeat split; by etrans. Qed.

Lemma processLine_grows d line :
  grows (info d) (info (processLine d line))
  /\ console d `prefix_of` console (processLine d line).
Proof.
  unfold processLine.
  destruct (JS.len (JS.strip_eol line) =? 0)%Z; [done|].
  destruct (JSON_parse line) as [|[m|]]; cbn; split; try done;
    try (by eexists). apply classify_grows.
Qed.

Lemma processLines_grows lines d :
  grows (info d) (info (fold_left processLine lines d))
  /\ console d `prefix_of` console (fold_left processLine lines d).
Proof.
  revert d. induction lines as [|l ls IH]; intros d; cbn [fold_left]; [done|].
  destruct (processLine_grows d l) as [H1 H2].
  destruct (IH (processLine d l)) as [K1 K2].
  split; [by eapply grows_trans|by etrans].
Qed.

Lemma onData_grows d data :
  grows (info d) (info (onData d data))
  /\ console d `prefix_of` console (onData d data).
Proof. rewrite onData_lines. apply processLines_grows. Qed.

Lemma processLine_count d line :
  entries (info (processLine d line)) + length (console (processLine d line))
  <= entries (info d) + length (console d)
     + (if (JS.len (JS.strip_eol line) =? 0)%Z then 0 else 1).
Proof.
  unfold processLine.
  destruct (JS.len (JS.strip_eol line) =? 0)%Z; [lia|].
  destruct (JSON_parse line) as [|[m|]]; cbn [info console];
    rewrite ?length_app; cbn [length]; try lia.
  unfold classify, entries.
  destruct (type_is m "error"); [cbn; rewrite length_app; cbn; lia|].
  destruct (type_is m "warning"); [cbn; rewrite length_app; cbn; lia|].
  destruct (type_is m "variable"); [cbn; rewrite length_app; cbn; lia|].
  lia.
Qed.

(** X10. A chunk adds at most one entry or one logged line per line that
    is not blank. *)
Theorem onData_one_per_line d data :
  entries (info (onData d data)) + length (console (onData d data))
  <= entries (info d) + length (console d) + length (nonblank_lines data).
Proof.
  rewrite onData_lines. unfold nonblank_lines.
  generalize (JS.split JS.LF data). intros lines. revert d.
  induction lines as [|l ls IH]; intros d; cbn [fold_left]; [cbn; lia|].
  specialize (IH (processLine d l)).
  pose proof (processLine_count d l) as H.
  rewrite filter_cons.
  destruct (decide ((JS.len (JS.strip_eol l) =? 0)%Z = false)) as [E|E].
  - rewrite E in H. cbn [length]. lia.
  - apply not_false_is_true in E. rewrite E in H. lia.
Qed.

(** X11. A record cut between two chunks is lost: joined, the text yields
    its diagnostic; fed in two chunks, each part is decoded alone. *)
Theorem record_cut_between_chunks d x y m :
  one_line x -> one_line y -> one_line (x ++ y)%string ->
  malformed x -> malformed y ->
  decodes (x ++ y)%string m -> type_is m "error" = true ->
  SQFLint.errors (info (onData d (x ++ y)%string))
  = SQFLint.errors (info d) ++ [new_Message m]
  /\ info (onData (onData d x) y) = info d
  /\ console (onData (onData d x) y)
     = console d ++ complaint JSON_parse x ++ complaint JSON_parse y.
Proof.
  intros Hx Hy Hxy Bx By D T. unfold one_line in *.
  rewrite !onData_lines, Hx, Hy, Hxy. cbn [fold_left].
  rewrite (processLine_decodes JSON_parse _ _ _ D), (classify_error _ _ T).
  rewrite (processLine_malformed JSON_parse _ _ Bx), (processLine_malformed JSON_parse _ _ By).
  cbn. by rewrite <- app_assoc.
Qed.

(** X12. A diagnostic has a range exactly when the record has both a line
    and a column, and the range is the mapped position. *)
Theorem diagnostic_range d line m :
  decodes line m ->
  type_is m "error" = true \/ type_is m "warning" = true ->
  exists diag,
    (type_is m "error" = true ->
     SQFLint.errors (info (processLine d line)) = SQFLint.errors (info d) ++ [diag])
    /\ (type_is m "warning" = true ->
        SQFLint.warnings (info (processLine d line)) = SQFLint.warnings (info d) ++ [diag])
    /\ (SQFLint.range diag = None
        <-> RawMessage.line m = None \/ RawMessage.column m = None)
    /\ (forall l c,
          RawMessage.line m = Some l -> RawMessage.column m = Some c ->
          SQFLint.range diag
          = Some (parsePosition {| RawMessagePosition.line := l;
                                   RawMessagePosition.column := c |})).
Proof.
  intros D T. exists (new_Message m).
  rewrite (processLine_decodes JSON_parse _ _ _ D). cbn [info].
  split; [|split; [|split]].
  - intros H. by rewrite (classify_error _ _ H).
  - intros H. by rewrite (classify_warning _ _ H).
  - cbn. unfold preload_position.
    destruct (RawMessage.line m), (RawMessage.column m); split; try done;
      try (by left); try (by right); intros [H|H]; discriminate.
  - intros l c Hl Hc. cbn. unfold preload_position. by rewrite Hl, Hc.
Qed.

(** X13. The ranges of a variable are ordered exactly when its raw positions
    are. *)
Theorem variable_ranges_ordered d line m :
  decodes line m -> type_is m "variable" = true ->
  exists v,
    SQFLint.variables (info (processLine d line)) = SQFLint.variables (info d) ++ [v]
    /\ (Forall (fun r => ordered r = true) (SQFLint.definitions v ++ SQFLint.usage v)
        <-> Forall (fun p => raw_ordered p = true)
              (for_in (RawMessage.definitions m) ++ for_in (RawMessage.usage m))).
Proof.
  intros D T. exists (new_VariableInfo m).
  rewrite (processLine_decodes JSON_parse _ _ _ D). cbn [info].
  rewrite (classify_variable _ _ T). split; [done|].
  cbn [new_VariableInfo SQFLint.definitions SQFLint.usage].
  rewrite <- map_app, Forall_map.
  apply Forall_iff. intros p. by rewrite ordered_parsePosition.
Qed.

End DecoderMore.

(** ** Debounced Scheduler and Process Runner, further *)

Section ClientMore.

Variable JSON_parse : string -> Parsed.

Abbreviation step := (step JSON_parse).
Abbreviation run := (run JSON_parse).
Abbreviation reachable := (reachable JSON_parse).
Abbreviation onData := (onData JSON_parse).

(** A property that holds at the start and through every event of a
    reachable state holds of every reachable state. *)
Lemma reachable_ind (P : State -> Prop) :
  P init ->
  (forall s e s', reachable s -> P s -> step s e = Some s' -> P s') ->
  forall s, reachable s -> P s.
Proof.
  intros H0 Hstep s [es Hrun].
  assert (G : forall es s0 s, reachable s0 -> P s0 -> run s0 es = Some s -> P s).
  { clear s es Hrun. intros es. induction es as [|e es IH]; intros s0 s Hr Hp; cbn [run].
    - by intros [= <-].
    - destruct (step s0 e) as [s1|] eqn:E; [|done].
      apply IH; [|by eapply Hstep].
      eapply (reachable_run JSON_parse [e]); [exact Hr|]. cbn [run]. by rewrite E. }
  eapply G; [|exact H0|exact Hrun]. by exists [].
Qed.

Lemma grows_refl i : grows i i.
Proof. by repeat split. Qed.

Lemma keeps_refl c : keeps c c.
Proof. repeat split; try done. Qed.

Lemma keeps_trans a b c : keeps a b -> keeps b c -> keeps a c.
Proof.
  intros (H1 & H2 & H3 & H4 & H5) (K1 & K2 & K3 & K4 & K5).
  repeat split; try congruence; try (destruct H4 as (?&?&?), K4 as (?&?&?); by etrans).
  auto.
Qed.

Lemma Forall2_keeps_refl l : Forall2 keeps l l.
Proof. apply Forall2_same_length_lookup. split; [done|]. intros i x y Hx Hy.
  rewrite Hx in Hy. injection Hy as <-. apply keeps_refl. Qed.

Lemma Forall2_keeps_insert l k c c' :
  l !! k = Some c -> keeps c c' -> Forall2 keeps l (<[k := c']> l).
Proof.
  intros Hk Hc. rewrite <- (list_insert_id l k c Hk) at 1.
  apply Forall2_insert; [apply Forall2_keeps_refl|done].
Qed.

(** The children after an event: those before, each keeping what it had,
    and at most one new child, spawned for the task that was waiting. *)
Lemma step_children s e s' :
  inv s -> step s e = Some s' ->
  exists old new,
    children s' = old ++ new
    /\ Forall2 keeps (children s) old
    /\ (new = []
        \/ exists tk d, top s = Some tk /\ new = [spawned tk d]
                        /\ processed s' = processed s ++ [tk])
    /\ (new = [] -> exists pr, processed s' = processed s ++ pr).
Proof.
  intros Hinv Hstep. destruct e as [contents|t sp|k data|k msg|k code].
  - assert (Hs' : s' = fst (parse contents s)) by (cbn [step] in Hstep; congruence).
    subst s'.
    destruct (parse_spec contents s Hinv) as (_ & _ & _ & _ & _ & _ & _ & Hch & Hpr & _).
    exists (children s), []. rewrite Hch, Hpr, app_nil_r.
    repeat split; [apply Forall2_keeps_refl|by left|]. intros _. exists []. by rewrite app_nil_r.
  - destruct (fire_has_task JSON_parse s t sp s' Hinv Hstep) as (tk & Etop & Hin).
    destruct sp as [|d].
    + destruct (fire_no_child JSON_parse s t tk Hinv Etop Hin)
        as (s1 & Hs1 & _ & _ & _ & _ & _ & _ & Hch & Hpr & _).
      rewrite Hstep in Hs1. injection Hs1 as <-.
      exists (children s), []. rewrite Hch, app_nil_r.
      repeat split; [apply Forall2_keeps_refl|by left|]. intros _. by exists [tk].
    + destruct (fire_spawned JSON_parse s t tk d Hinv Etop Hin)
        as (s1 & Hs1 & _ & _ & _ & _ & Hch & Hpr & _).
      rewrite Hstep in Hs1. injection Hs1 as <-.
      exists (children s), [spawned tk d].
      repeat split; [done|apply Forall2_keeps_refl| |done].
      right. by exists tk, d.
  - cbn [step] in Hstep.
    destruct (children s !! k) as [c|] eqn:Hk; [|done].
    destruct (closed c) eqn:Hopen; [done|]. injection Hstep as <-.
    destruct (on_data_frame JSON_parse k c data s) as (_ & Hch).
    eexists _, []. rewrite app_nil_r. split; [exact Hch|].
    split; [|split; [by left|intros _; exists []; by rewrite app_nil_r]].
    eapply Forall2_keeps_insert; [exact Hk|].
    repeat split; try done; cbn [result closed]; try congruence;
      destruct (onData_grows JSON_parse {| info := result c; console := log s |} data)
        as ((G1 & G2 & G3) & _); done.
  - cbn [step] in Hstep.
    destruct (children s !! k) as [c|] eqn:Hk; [|done].
    destruct (closed c) eqn:Hopen; [done|]. injection Hstep as <-.
    unfold on_error. set (s0 := console_error _ s).
    destruct (settle_frame (promise (task c)) (Rejected (ChildFault msg)) s0)
      as (_ & _ & _ & _ & Hch & _ & Hpr).
    exists (children s), []. rewrite Hch, Hpr, app_nil_r.
    repeat split; [apply Forall2_keeps_refl|by left|]. intros _. exists []. by rewrite app_nil_r.
  - cbn [step] in Hstep.
    destruct (children s !! k) as [c|] eqn:Hk; [|done].
    destruct (closed c) eqn:Hopen; [done|]. injection Hstep as <-.
    unfold on_close. set (s0 := if nonzero code then _ else s).
    assert (H0 : children s0 = children s /\ processed s0 = processed s)
      by (unfold s0; destruct (nonzero code); done).
    destruct H0 as (Hc0 & Hp0).
    destruct (settle_frame (promise (task c)) (Fulfilled k) s0)
      as (_ & _ & _ & _ & Hch & _ & Hpr).
    eexists _, []. rewrite app_nil_r. cbn [children with_children processed].
    rewrite Hch, Hpr, Hc0, Hp0.
    split; [reflexivity|].
    split; [|split; [by left|intros _; exists []; by rewrite app_nil_r]].
    eapply Forall2_keeps_insert; [exact Hk|].
    repeat split; try done.
Qed.

(** What a child has, it keeps through one event. *)
Lemma child_kept_step s e s' k c :
  inv s -> step s e = Some s' -> children s !! k = Some c ->
  exists c', children s' !! k = Some c' /\ keeps c c'.
Proof.
  intros Hinv Hstep Hk.
  destruct (step_children s e s' Hinv Hstep) as (old & new & Hch & Hold & _).
  destruct (Forall2_lookup_l _ _ _ _ _ Hold Hk) as (c' & Hk' & Hkeep).
  exists c'. split; [|done]. rewrite Hch. by apply lookup_app_l_Some.
Qed.

(** X14. Whatever happens, a child keeps its task, what was written to it
    and what its [ParseInfo] holds: the sequences only grow. *)
Theorem result_only_grows s es s' k c :
  reachable s -> run s es = Some s' -> children s !! k = Some c ->
  exists c', children s' !! k = Some c' /\ keeps c c'.
Proof.
  intros Hr. pose proof (reachable_inv JSON_parse s Hr) as Hinv. clear Hr.
  revert s c Hinv. induction es as [|e es IH]; intros s c Hinv; cbn [run].
  - intros [= <-] Hk. exists c. split; [done|apply keeps_refl].
  - destruct (step s e) as [s1|] eqn:E; [|done]. intros Hrun Hk.
    destruct (child_kept_step s e s1 k c Hinv E Hk) as (c1 & Hk1 & Hkeep1).
    destruct (IH s1 c1 (inv_step JSON_parse s e s1 Hinv E) Hrun Hk1) as (c' & Hk' & Hkeep').
    exists c'. split; [done|by eapply keeps_trans].
Qed.


(** X15. There is one slot: at most one timer is armed, it is armed exactly
    when a task waits, it is the timer of the instance, and the promise of
    the waiting task is pending. *)
Theorem single_pending_slot s :
  reachable s ->
  length (timers s) <= 1
  /\ (timers s = [] <-> top s = None)
  /\ timers s = match timeout s with Some h => [h] | None => [] end
  /\ (forall tk, top s = Some tk -> promise_state s (promise tk) = Some Pending).
Proof.
  intros Hr. destruct (reachable_inv JSON_parse s Hr) as (_ & _ & _ & Ht).
  destruct (top s) as [tk|].
  - destruct Ht as (_ & Hpend & h & Hto & Htm). rewrite Htm, Hto.
    split; [cbn; lia|]. split; [split; discriminate|]. split; [done|].
    intros tk' [= <-]. exact Hpend.
  - destruct Ht as (Hto & Htm). rewrite Htm, Hto.
    split; [cbn; lia|]. split; [done|]. split; [done|]. discriminate.
Qed.

(** X16. A promise settles once: fulfilled or rejected, it stays so. *)
Theorem settled_promise_is_final s es s' p v :
  reachable s -> run s es = Some s' ->
  promise_state s p = Some v -> v <> Pending ->
  promise_state s' p = Some v.
Proof.
  intros Hr Hrun Hp Hv. eapply (run_settled JSON_parse es s s'); try done.
  by apply (reachable_inv JSON_parse).
Qed.

(** An event hands at most one task to [process]: the one waiting. *)
Lemma step_processed s e s' :
  inv s -> step s e = Some s' ->
  processed s' = processed s
  \/ exists tk, top s = Some tk /\ processed s' = processed s ++ [tk].
Proof.
  intros Hinv Hstep. destruct e as [contents|t sp|k data|k msg|k code].
  - assert (Hs' : s' = fst (parse contents s)) by (cbn [step] in Hstep; congruence).
    subst s'. destruct (parse_spec contents s Hinv) as (_&_&_&_&_&_&_&_& Hpr &_).
    by left.
  - destruct (fire_has_task JSON_parse s t sp s' Hinv Hstep) as (tk & Etop & Hin).
    right. exists tk. split; [done|]. destruct sp as [|d].
    + destruct (fire_no_child JSON_parse s t tk Hinv Etop Hin)
        as (s1 & Hs1 & _ & _ & _ & _ & _ & _ & _ & Hpr & _).
      rewrite Hstep in Hs1. by injection Hs1 as <-.
    + destruct (fire_spawned JSON_parse s t tk d Hinv Etop Hin)
        as (s1 & Hs1 & _ & _ & _ & _ & _ & Hpr & _).
      rewrite Hstep in Hs1. by injection Hs1 as <-.
  - left. by destruct (child_step_frame JSON_parse s (Data k data) s' I Hstep)
      as (_&_&_&_& Hpr & _).
  - left. by destruct (child_step_frame JSON_parse s (Fault k msg) s' I Hstep)
      as (_&_&_&_& Hpr & _).
  - left. by destruct (child_step_frame JSON_parse s (Close k code) s' I Hstep)
      as (_&_&_&_& Hpr & _).
Qed.

Lemma fed_spawned tk d : fed (spawned tk d).
Proof. destruct d; cbn; [left|right|right]; auto. Qed.

Lemma fed_keeps c c' : keeps c c' -> fed c -> fed c'.
Proof. intros (H1 & H2 & H3 & _) H. unfold fed in *. by rewrite H1, H2, H3. Qed.

Lemma children_are_fed_all s :
  reachable s ->
  forall k c, children s !! k = Some c -> task c ∈ processed s /\ fed c.
Proof.
  intros Hr.
  assert (G : Forall (fun c => task c ∈ processed s /\ fed c) (children s)).
  { revert s Hr. apply reachable_ind; [constructor|].
    intros s e s' Hr Hall Hstep.
    pose proof (reachable_inv JSON_parse s Hr) as Hinv.
    destruct (step_children s e s' Hinv Hstep) as (old & new & Hch & Hold & Hnew & Hnone).
    rewrite Hch. apply Forall_app. split.
    - assert (Hsub : exists pr, processed s' = processed s ++ pr).
      { destruct Hnew as [->|(tk & d & _ & _ & Hpr)]; [by apply Hnone|by exists [tk]]. }
      destruct Hsub as (pr & Hpr).
      apply Forall_forall. intros c' Hc'.
      apply list_elem_of_lookup in Hc' as (i & Hi).
      destruct (Forall2_lookup_r _ _ _ _ _ Hold Hi) as (c0 & Hi0 & Hkeep).
      rewrite Forall_forall in Hall.
      destruct (Hall c0 (list_elem_of_lookup_2 _ _ _ Hi0)) as (Hin & Hfed).
      split; [|by eapply fed_keeps].
      destruct Hkeep as (-> & _). rewrite Hpr. apply elem_of_app. by left.
    - destruct Hnew as [->|(tk & d & _ & -> & Hpr)]; [constructor|].
      apply Forall_cons. split; [|constructor]. split; [|apply fed_spawned].
      rewrite Hpr. apply elem_of_app. right. by apply list_elem_of_singleton. }
  intros k c Hk. rewrite Forall_forall in G. apply G. by eapply list_elem_of_lookup_2.
Qed.

(** X17. A child is the child of a task handed to [process]; nothing but the
    text of its task is written to it, and it is killed exactly when the
    text or the end of input could not be written. *)
Theorem children_are_fed s k c :
  reachable s -> children s !! k = Some c ->
  task c ∈ processed s /\ fed c.
Proof. intros Hr. by apply children_are_fed_all. Qed.

(** X18. No task is handed to [process] twice, and every task handed to it
    comes from a call. *)
Theorem processed_at_most_once s :
  reachable s ->
  NoDup (promise <$> processed s)
  /\ Forall (fun t => promise t < length (promises s)) (processed s)
  /\ length (children s) <= length (processed s) <= length (promises s).
Proof.
  intros Hr.
  assert (Hnd : NoDup (promise <$> processed s)); [|split; [exact Hnd|]].
  2:{ pose proof (reachable_inv JSON_parse s Hr) as Hinv.
      pose proof (floor_le s Hinv) as Hle.
      assert (Hb : Forall (fun t => promise t < length (promises s)) (processed s)).
      { destruct Hinv as (_ & Hp & _).
        eapply Forall_impl; [exact Hp|]. cbn. intros; lia. }
      split; [exact Hb|]. split.
      - destruct Hinv as (_ & _ & Hndc & _).
        assert (Hsub : (promise <$> (task <$> children s)) ⊆+ (promise <$> processed s)).
        { apply NoDup_submseteq; [exact Hndc|].
          intros x Hx. apply list_elem_of_fmap in Hx as (t & -> & Ht).
          apply list_elem_of_fmap in Ht as (c & -> & Hc).
          apply list_elem_of_lookup in Hc as (k & Hk).
          apply list_elem_of_fmap. exists (task c). split; [done|].
          exact (proj1 (children_are_fed_all s Hr k c Hk)). }
        apply submseteq_length in Hsub. by rewrite !length_fmap in Hsub.
      - assert (Hsub : (promise <$> processed s) ⊆+ seq 0 (length (promises s))).
        { apply NoDup_submseteq; [exact Hnd|].
          intros x Hx. apply list_elem_of_fmap in Hx as (t & -> & Ht).
          rewrite Forall_forall in Hb. specialize (Hb t Ht).
          apply elem_of_seq. lia. }
        apply submseteq_length in Hsub. by rewrite length_fmap, length_seq in Hsub. }
  revert s Hr. apply reachable_ind; [constructor|].
  intros s e s' Hr Hnd Hstep.
  pose proof (reachable_inv JSON_parse s Hr) as Hinv.
  destruct (step_processed s e s' Hinv Hstep) as [->|(tk & Etop & ->)]; [done|].
  rewrite fmap_app. apply NoDup_app. split; [done|]. split; [|apply NoDup_singleton].
  intros x Hx Hx'. apply list_elem_of_singleton in Hx'. subst x.
  apply list_elem_of_fmap in Hx as (t' & Heq & Hx).
  destruct Hinv as (_ & Hp & _). rewrite Forall_forall in Hp.
  specialize (Hp t' Hx). unfold floor in Hp. rewrite Etop in Hp. lia.
Qed.


Lemma settle_lookup_fulfilled q v s p k :
  promises (settle q v s) !! p = Some (Fulfilled k) ->
  promises s !! p = Some (Fulfilled k)
  \/ (p = q /\ v = Fulfilled k /\ promises s !! q = Some Pending).
Proof.
  unfold settle. destruct (promises s !! q) as [[]|] eqn:E; cbn; auto.
  destruct (decide (q = p)) as [->|Hne].
  - rewrite list_lookup_insert_eq by (by eapply lookup_lt_Some).
    intros [= ->]. by right.
  - rewrite list_lookup_insert_ne by done. auto.
Qed.

(** X19. A promise is fulfilled only by its own run, at the close of the
    child: a fulfilled promise refers to a closed child with that
    promise, so it always gives a [ParseInfo]. *)
Theorem fulfilled_by_own_run s p k :
  reachable s -> promise_state s p = Some (Fulfilled k) ->
  exists c,
    children s !! k = Some c /\ promise (task c) = p /\ closed c = true
    /\ fulfilled_with s p = Some (result c).
Proof.
  intros Hr Hp.
  assert (G : forall p k, promises s !! p = Some (Fulfilled k) ->
              exists c, children s !! k = Some c /\ promise (task c) = p /\ closed c = true).
  { clear p k Hp. revert s Hr.
    refine (reachable_ind
              (fun s => forall p k, promises s !! p = Some (Fulfilled k) ->
                 exists c, children s !! k = Some c /\ promise (task c) = p
                           /\ closed c = true) _ _);
      [intros p k; cbn [init promises]; by rewrite lookup_nil|].
    intros s e s' Hr IH Hstep p k Hp.
    pose proof (reachable_inv JSON_parse s Hr) as Hinv.
    assert (Hkept : forall c, children s !! k = Some c -> promise (task c) = p ->
                    closed c = true ->
                    exists c', children s' !! k = Some c' /\ promise (task c') = p
                               /\ closed c' = true).
    { intros c Hk Hpc Hcl.
      destruct (child_kept_step s e s' k c Hinv Hstep Hk) as (c' & Hk' & Ht & _ & _ & _ & Hc).
      exists c'. rewrite Ht. auto. }
    assert (Hold : promises s !! p = Some (Fulfilled k) ->
                   exists c', children s' !! k = Some c' /\ promise (task c') = p
                              /\ closed c' = true).
    { intros H. destruct (IH p k H) as (c & Hk & Hpc & Hcl). by eapply Hkept. }
    destruct e as [contents|t sp|k' data|k' msg|k' code].
    - assert (Hs' : s' = fst (parse contents s)) by (cbn [step] in Hstep; congruence).
      subst s'.
      destruct (parse_spec contents s Hinv)
        as (_ & _ & _ & _ & _ & Hlen & Hpend & _ & _ & _ & Hq).
      assert (Hlt : p < S (length (promises s))).
      { rewrite <- Hlen. by eapply lookup_lt_Some. }
      destruct (decide (p = length (promises s))) as [->|Hne]; [congruence|].
      rewrite Hq in Hp by lia. apply Hold.
      destruct (top s) as [tw|]; [|done].
      destruct (decide (p = promise tw)); [done|done].
    - destruct (fire_has_task JSON_parse s t sp s' Hinv Hstep) as (tk & Etop & Hin).
      destruct sp as [|d].
      + destruct (fire_no_child JSON_parse s t tk Hinv Etop Hin)
          as (s1 & Hs1 & _ & _ & _ & _ & Hrej & Hother & _).
        rewrite Hstep in Hs1. injection Hs1 as <-.
        destruct (decide (p = promise tk)) as [->|Hne]; [congruence|].
        apply Hold. by rewrite <- Hother.
      + destruct (fire_spawned JSON_parse s t tk d Hinv Etop Hin)
          as (s1 & Hs1 & _ & _ & _ & Hsame & _).
        rewrite Hstep in Hs1. injection Hs1 as <-.
        apply Hold. by rewrite <- Hsame.
    - pose proof Hstep as Hstep'. cbn [step] in Hstep'.
      destruct (children s !! k') as [c|] eqn:Hk'; [|done].
      destruct (closed c) eqn:Hopen; [done|]. injection Hstep' as <-.
      apply Hold. destruct (on_data_frame JSON_parse k' c data s) as (Hpr & _).
      by rewrite <- Hpr.
    - pose proof Hstep as Hstep'. cbn [step] in Hstep'.
      destruct (children s !! k') as [c|] eqn:Hk'; [|done].
      destruct (closed c) eqn:Hopen; [done|]. injection Hstep' as <-.
      apply Hold. unfold on_error in Hp.
      apply settle_lookup_fulfilled in Hp as [Hp|(_ & [=] & _)]. exact Hp.
    - pose proof Hstep as Hstep'. cbn [step] in Hstep'.
      destruct (children s !! k') as [c|] eqn:Hk'; [|done].
      destruct (closed c) eqn:Hopen; [done|]. injection Hstep' as Hs'.
      assert (Hch : children s' = <[k' := {| task := task c; result := result c;
                                            stdin := stdin c; killed := killed c;
                                            closed := true |}]> (children s)).
      { rewrite <- Hs'. unfold on_close. cbn [children with_children].
        set (s0 := if nonzero code then _ else s).
        destruct (settle_frame (promise (task c)) (Fulfilled k') s0)
          as (_ & _ & _ & _ & -> & _).
        unfold s0. by destruct (nonzero code). }
      rewrite <- Hs' in Hp. unfold on_close in Hp. cbn [promises with_children] in Hp.
      apply settle_lookup_fulfilled in Hp as [Hp|(-> & [= ->] & Hpend)].
      + apply Hold. by destruct (nonzero code).
      + eexists. rewrite Hch.
        split; [apply list_lookup_insert_eq; by eapply lookup_lt_Some|]. done. }
  destruct (G p k Hp) as (c & Hk & Hpc & Hcl).
  exists c. repeat split; try done.
  unfold fulfilled_with. unfold promise_state in Hp. by rewrite Hp, Hk.
Qed.

(** X20. The [error] event of a child rejects the pending promise of its run
    with the message of the event; the close of the child that follows
    does not fulfil it. *)
Theorem child_error_rejects s k tk r msg :
  reachable s -> running k tk r s ->
  exists s1,
    step s (Fault k msg) = Some s1
    /\ promise_state s1 (promise tk) = Some (Rejected (ChildFault msg))
    /\ log s1 = log s ++ ["SQFLint: Failed to call sqflint. Do you have java installed?"]
    /\ forall es s2,
         run s1 es = Some s2 ->
         promise_state s2 (promise tk) = Some (Rejected (ChildFault msg))
         /\ fulfilled_with s2 (promise tk) = None.
Proof.
  intros Hr (c & Hk & Htk & Hopen & _ & Hpend).
  pose proof (reachable_inv JSON_parse s Hr) as Hinv.
  eexists. split; [cbn [step]; rewrite Hk, Hopen; reflexivity|].
  unfold on_error. set (s0 := console_error _ s).
  assert (Hrej : promises (settle (promise (task c)) (Rejected (ChildFault msg)) s0)
                 !! promise tk = Some (Rejected (ChildFault msg))).
  { rewrite Htk. by apply settle_pending. }
  split; [exact Hrej|]. split.
  { by destruct (settle_frame (promise (task c)) (Rejected (ChildFault msg)) s0)
      as (_ & _ & _ & _ & _ & -> & _). }
  intros es s2 Hrun.
  assert (Hinv1 : inv (settle (promise (task c)) (Rejected (ChildFault msg)) s0)).
  { eapply (inv_step JSON_parse s (Fault k msg)); [done|].
    cbn [step]. by rewrite Hk, Hopen. }
  assert (H2 : promises s2 !! promise tk = Some (Rejected (ChildFault msg)))
    by (by eapply (run_settled JSON_parse es _ s2)).
  split; [done|]. unfold fulfilled_with. by rewrite H2.
Qed.

(** X21. Runs may overlap: a timer that fires while a run is open launches a
    second child, and the first goes on. *)
Theorem runs_may_overlap s k tk r tw t d :
  reachable s -> running k tk r s -> top s = Some tw -> t ∈ timers s ->
  exists s1,
    step s (Fire t (Spawned d)) = Some s1
    /\ running k tk r s1
    /\ running (length (children s)) tw SQFLint.new_ParseInfo s1
    /\ k < length (children s).
Proof.
  intros Hr Hrun Etop Hin.
  pose proof (reachable_inv JSON_parse s Hr) as Hinv.
  destruct (launched_running JSON_parse s t tw d Hinv Etop Hin) as (s1 & Hs1 & Hnew & _).
  exists s1. split; [done|]. split; [|split; [done|]].
  - exact (running_step JSON_parse k tk r s (Fire t (Spawned d)) s1 Hinv Hrun I Hs1).
  - destruct Hrun as (c & Hk & _). by eapply lookup_lt_Some.
Qed.

(** X22. A call returns a new, pending promise, and when its timer fires
    with nothing in between, its own text is what [process] gets. *)
Theorem call_runs_when_timer_fires s c :
  reachable s ->
  exists s1 p t,
    parse c s = (s1, p)
    /\ promise_state s p = None /\ promise_state s1 p = Some Pending
    /\ timeout s1 = Some t
    /\ forall d,
         exists s2,
           step s1 (Fire t (Spawned d)) = Some s2
           /\ children s2 !! length (children s)
              = Some (spawned {| promise := p; contents := c |} d)
           /\ top s2 = None /\ timers s2 = [].
Proof.
  intros Hr. pose proof (reachable_inv JSON_parse s Hr) as Hinv.
  destruct (parse_spec c s Hinv)
    as (Hp & Htop & Hto & Htm & _ & _ & Hpend & Hch & _).
  destruct (parse c s) as [s1 p] eqn:E. cbn [fst snd] in *. subst p.
  exists s1, (length (promises s)), (next_timer s).
  split; [done|]. split; [by apply lookup_ge_None_2|]. split; [done|]. split; [done|].
  intros d.
  assert (Hinv1 : inv s1).
  { pose proof (inv_parse c s Hinv) as H. by rewrite E in H. }
  destruct (fire_spawned JSON_parse s1 (next_timer s) _ d Hinv1 Htop)
    as (s2 & Hs2 & Htop2 & _ & Htm2 & _ & Hch2 & _).
  { rewrite Htm. by apply list_elem_of_singleton. }
  exists s2. split; [done|]. split; [|done].
  rewrite Hch2, Hch, lookup_app_r by lia. by rewrite Nat.sub_diag.
Qed.

(** X23. The close handler fulfils the pending promise of its run whatever
    the code is, and logs exactly when the code is not zero; the code
    of a child ended by a signal, [null], is not zero. *)
Theorem close_logs_nonzero_only s k tk r code :
  reachable s -> running k tk r s ->
  exists s1,
    step s (Close k code) = Some s1
    /\ fulfilled_with s1 (promise tk) = Some r
    /\ (code = Some 0%Z -> log s1 = log s)
    /\ (code <> Some 0%Z ->
        log s1 = log s ++ ["SQFLint: Failed to run sqflint. Do you have java installed?"]).
Proof.
  intros Hr (c & Hk & Htk & Hopen & Hres & Hpend).
  rewrite <- Htk in Hpend.
  destruct (close_fulfils JSON_parse s k c code Hk Hopen Hpend) as (s1 & H1 & _ & H3 & H4).
  exists s1. rewrite <- Htk, <- Hres. split; [done|]. split; [done|]. split.
  - intros ->. rewrite H4. cbn. by rewrite app_nil_r.
  - intros Hne. rewrite H4.
    replace (nonzero code) with true; [done|].
    destruct code as [z|]; [|done]. cbn. symmetry. apply negb_true_iff, Z.eqb_neq.
    intros ->. done.
Qed.


(** *** Bursts of calls *)

Lemma run_snoc es e s :
  run s (es ++ [e]) = match run s es with
                      | Some s1 => step s1 e
                      | None => None
                      end.
Proof.
  rewrite (run_app JSON_parse). destruct (run s es) as [s1|]; [|done].
  cbn [run]. by destruct (step s1 e).
Qed.

Lemma burst s cs c :
  inv s ->
  exists s',
    run s (Call <$> (cs ++ [c])) = Some s'
    /\ inv s'
    /\ top s' = Some {| promise := length (promises s) + length cs; contents := c |}
    /\ length (promises s') = S (length (promises s) + length cs)
    /\ processed s' = processed s /\ children s' = children s
    /\ (forall i, i < length cs ->
          promises s' !! (length (promises s) + i) = Some (Rejected NoPayload)).
Proof.
  intros Hinv. revert c. induction cs as [|c' cs IH] using rev_ind; intros c.
  - cbn [app fmap list_fmap run step].
    destruct (parse_spec c s Hinv) as (_ & Htop & _ & _ & _ & Hlen & _ & Hch & Hpr & _).
    exists (fst (parse c s)). rewrite Nat.add_0_r.
    split; [done|]. split; [by apply inv_parse|]. split; [done|]. split; [done|].
    split; [done|]. split; [done|]. intros i Hi. cbn in Hi. lia.
  - destruct (IH c') as (s1 & Hrun & Hinv1 & Htop1 & Hlen1 & Hpr1 & Hch1 & Hrej1).
    rewrite fmap_app. cbn [fmap list_fmap]. rewrite run_snoc, Hrun. cbn [step].
    destruct (parse_spec c s1 Hinv1)
      as (_ & Htop & _ & _ & _ & Hlen & _ & Hch & Hpr & _ & Hold).
    exists (fst (parse c s1)). rewrite length_app. cbn [length].
    split; [done|]. split; [by apply inv_parse|].
    split; [rewrite Htop, Hlen1; f_equal; f_equal; lia|].
    split; [rewrite Hlen, Hlen1; lia|].
    split; [by rewrite Hpr|]. split; [by rewrite Hch|].
    intros i Hi. rewrite Hold by lia. rewrite Htop1. cbn [promise].
    destruct (decide (length (promises s) + i = length (promises s) + length cs))
      as [E|E]; [done|].
    apply Hrej1. lia.
Qed.

(** X24. Of a burst of calls, all promises but the last are rejected, no
    text is handed to [process] meanwhile, and when the timer fires it is
    the last text that is written to the child. *)
Theorem burst_keeps_last s cs c :
  reachable s ->
  exists s' t,
    run s (Call <$> (cs ++ [c])) = Some s'
    /\ (forall i, i < length cs ->
          promise_state s' (length (promises s) + i) = Some (Rejected NoPayload))
    /\ promise_state s' (length (promises s) + length cs) = Some Pending
    /\ processed s' = processed s
    /\ timers s' = [t]
    /\ exists s'',
         step s' (Fire t (Spawned Delivered)) = Some s''
         /\ processed s''
            = processed s
              ++ [{| promise := length (promises s) + length cs; contents := c |}]
         /\ children s'' !! length (children s)
            = Some (spawned {| promise := length (promises s) + length cs;
                               contents := c |} Delivered).
Proof.
  intros Hr. pose proof (reachable_inv JSON_parse s Hr) as Hinv.
  destruct (burst s cs c Hinv) as (s' & Hrun & Hinv' & Htop & Hlen & Hpr & Hch & Hrej).
  pose proof Hinv' as (_ & _ & _ & Ht). rewrite Htop in Ht.
  destruct Ht as (_ & Hpend & t & Hto & Htm).
  exists s', t. split; [done|]. split; [exact Hrej|]. split; [exact Hpend|].
  split; [done|]. split; [done|].
  destruct (fire_spawned JSON_parse s' t _ Delivered Hinv' Htop)
    as (s'' & Hs'' & _ & _ & _ & _ & Hch'' & Hpr'' & _).
  { rewrite Htm. by apply list_elem_of_singleton. }
  exists s''. split; [done|]. split; [by rewrite Hpr'', Hpr|].
  rewrite Hch'', Hch, lookup_app_r by lia. by rewrite Nat.sub_diag.
Qed.

End ClientMore.

(** ** The further properties at sample inputs *)

Lemma parseComment_result_trimmed_witness : JS.trim "note" = "note".
Proof. apply (parseComment_result_trimmed (Some "  // note ") "note"). reflexivity. Defined.

Lemma parseComment_line_comment_witness :
  parseComment (Some ("//" ++ " note ")%string) = Some (JS.trim " note ").
Proof. apply (parseComment_line_comment " note "). reflexivity. Defined.

Lemma parseComment_block_lines_witness :
  parseComment (Some ("/* first" ++ Sample.nl ++ " * second */")%string)
  = Some (JS.join CRLF ["first"; "second"])
  /\ Forall (fun l => tidy l /\ one_line l) ["first"; "second"].
Proof.
  apply (parseComment_block_lines ("/* first" ++ Sample.nl ++ " * second */")%string).
  vm_compute. reflexivity.
Defined.

Lemma parseComment_closing_unchecked_witness :
  parseComment (Some ("/*" ++ " a " ++ "*/")%string)
  = parseComment (Some ("/*" ++ " a " ++ "xy")%string).
Proof. apply (parseComment_closing_unchecked " a " "*" "/" "x" "y"); reflexivity. Defined.

Lemma onData_blank_witness : onData JSON.decode Sample.fresh Cases.line_ends = Sample.fresh.
Proof. apply onData_blank. vm_compute. reflexivity. Defined.

Lemma record_cut_between_chunks_witness :
  SQFLint.errors
    (info (onData JSON.decode Sample.fresh (Cases.first_part ++ Cases.second_part)%string))
  = [{| SQFLint.message := Some "bad op"; SQFLint.range := None |}]
  /\ info (onData JSON.decode (onData JSON.decode Sample.fresh Cases.first_part)
             Cases.second_part)
     = SQFLint.new_ParseInfo.
Proof.
  destruct (record_cut_between_chunks JSON.decode Sample.fresh
              Cases.first_part Cases.second_part
              (Sample.record_of (Cases.first_part ++ Cases.second_part)%string))
    as (H1 & H2 & _).
  - vm_compute. reflexivity.
  - vm_compute. reflexivity.
  - vm_compute. reflexivity.
  - split; [vm_compute; reflexivity|]. vm_compute. exact I.
  - split; [vm_compute; reflexivity|]. vm_compute. exact I.
  - split; vm_compute; reflexivity.
  - vm_compute. reflexivity.
  - split; [rewrite H1; vm_compute; reflexivity|exact H2].
Defined.

Lemma diagnostic_range_witness :
  exists diag,
    SQFLint.errors (info (processLine JSON.decode Sample.fresh Sample.plain_error_line))
    = [diag]
    /\ SQFLint.range diag = None.
Proof.
  destruct (diagnostic_range JSON.decode Sample.fresh Sample.plain_error_line
              (Sample.record_of Sample.plain_error_line))
    as (diag & He & _ & Hr & _).
  - split; vm_compute; reflexivity.
  - left. vm_compute. reflexivity.
  - exists diag. split; [apply He; vm_compute; reflexivity|].
    apply Hr. left. vm_compute. reflexivity.
Defined.

Lemma variable_ranges_ordered_witness :
  exists v,
    SQFLint.variables (info (processLine JSON.decode Sample.fresh Sample.variable_line))
    = [v]
    /\ Forall (fun r => ordered r = true) (SQFLint.definitions v ++ SQFLint.usage v).
Proof.
  destruct (variable_ranges_ordered JSON.decode Sample.fresh Sample.variable_line
              (Sample.record_of Sample.variable_line))
    as (v & Hv & Ho).
  - split; vm_compute; reflexivity.
  - vm_compute. reflexivity.
  - exists v. split; [exact Hv|]. apply Ho. vm_compute. repeat constructor.
Defined.

Lemma result_only_grows_witness :
  exists c',
    children (Sample.state_after
                [Call "x = 1;"; Fire 0 (Spawned Delivered);
                 Data 0 Sample.broken_chunk]) !! 0 = Some c'
    /\ keeps (spawned {| promise := 0; contents := "x = 1;" |} Delivered) c'.
Proof.
  apply (result_only_grows JSON.decode Sample.in_flight [Data 0 Sample.broken_chunk]).
  - exact reachable_in_flight.
  - vm_compute. reflexivity.
  - reflexivity.
Defined.

Lemma reachable_second_waiting : reachable JSON.decode Cases.second_waiting.
Proof.
  exists [Call "x = 1;"; Fire 0 (Spawned Delivered); Call "y = 2;"].
  vm_compute. reflexivity.
Defined.

Lemma reachable_finished : reachable JSON.decode Cases.finished.
Proof.
  exists [Call "x = 1;"; Fire 0 (Spawned Delivered);
          Data 0 (Sample.warning_line ++ Sample.nl); Close 0 (Some 1%Z)].
  vm_compute. reflexivity.
Defined.

Lemma running_in_flight :
  running 0 {| promise := 0; contents := "x = 1;" |} SQFLint.new_ParseInfo Sample.in_flight.
Proof. eexists. repeat split; reflexivity. Defined.

Lemma running_second_waiting :
  running 0 {| promise := 0; contents := "x = 1;" |} SQFLint.new_ParseInfo
    Cases.second_waiting.
Proof. eexists. repeat split; reflexivity. Defined.

Lemma single_pending_slot_witness :
  timers Cases.second_waiting = [1]
  /\ promise_state Cases.second_waiting 1 = Some Pending.
Proof.
  destruct (single_pending_slot JSON.decode Cases.second_waiting reachable_second_waiting)
    as (_ & _ & Htm & Hp).
  split; [exact Htm|]. exact (Hp {| promise := 1; contents := "y = 2;" |} eq_refl).
Defined.

Lemma settled_promise_is_final_witness :
  promise_state
    (Sample.state_after
       [Call "x = 1;"; Fire 0 (Spawned Delivered);
        Data 0 (Sample.warning_line ++ Sample.nl); Close 0 (Some 1%Z); Call "y = 2;"]) 0
  = Some (Fulfilled 0).
Proof.
  apply (settled_promise_is_final JSON.decode Cases.finished [Call "y = 2;"]).
  - exact reachable_finished.
  - vm_compute. reflexivity.
  - reflexivity.
  - discriminate.
Defined.

Lemma processed_at_most_once_witness :
  NoDup (promise <$> processed Cases.finished)
  /\ Forall (fun t => promise t < length (promises Cases.finished))
       (processed Cases.finished)
  /\ length (children Cases.finished) <= length (processed Cases.finished)
     <= length (promises Cases.finished).
Proof. exact (processed_at_most_once JSON.decode Cases.finished reachable_finished). Defined.

Lemma children_are_fed_witness :
  {| promise := 0; contents := "x = 1;" |} ∈ processed Sample.in_flight
  /\ fed (spawned {| promise := 0; contents := "x = 1;" |} Delivered).
Proof.
  exact (children_are_fed JSON.decode Sample.in_flight 0 _ reachable_in_flight eq_refl).
Defined.

Lemma fulfilled_by_own_run_witness :
  exists c,
    children Cases.finished !! 0 = Some c /\ promise (task c) = 0 /\ closed c = true
    /\ fulfilled_with Cases.finished 0 = Some (result c).
Proof.
  exact (fulfilled_by_own_run JSON.decode Cases.finished 0 0 reachable_finished eq_refl).
Defined.

Lemma child_error_rejects_witness :
  exists s1,
    step JSON.decode Sample.in_flight (Fault 0 "spawn java ENOENT") = Some s1
    /\ promise_state s1 0 = Some (Rejected (ChildFault "spawn java ENOENT")).
Proof.
  destruct (child_error_rejects JSON.decode Sample.in_flight 0 _ _ "spawn java ENOENT"
              reachable_in_flight running_in_flight)
    as (s1 & H1 & H2 & _).
  exists s1. split; [exact H1|exact H2].
Defined.

Lemma runs_may_overlap_witness :
  exists s1,
    step JSON.decode Cases.second_waiting (Fire 1 (Spawned Delivered)) = Some s1
    /\ running 0 {| promise := 0; contents := "x = 1;" |} SQFLint.new_ParseInfo s1
    /\ running 1 {| promise := 1; contents := "y = 2;" |} SQFLint.new_ParseInfo s1.
Proof.
  destruct (runs_may_overlap JSON.decode Cases.second_waiting 0 _ _
              {| promise := 1; contents := "y = 2;" |} 1 Delivered
              reachable_second_waiting running_second_waiting eq_refl)
    as (s1 & H1 & H2 & H3 & _).
  - by apply list_elem_of_singleton.
  - exists s1. split; [exact H1|]. split; [exact H2|exact H3].
Defined.

Lemma call_runs_when_timer_fires_witness :
  exists s1 p t,
    parse "y = 2;" Sample.in_flight = (s1, p)
    /\ promise_state s1 p = Some Pending
    /\ timeout s1 = Some t.
Proof.
  destruct (call_runs_when_timer_fires JSON.decode Sample.in_flight "y = 2;"
              reachable_in_flight)
    as (s1 & p & t & H1 & _ & H3 & H4 & _).
  exists s1, p, t. split; [exact H1|]. split; [exact H3|exact H4].
Defined.

Lemma close_logs_nonzero_only_witness :
  exists s1,
    step JSON.decode Sample.in_flight (Close 0 None) = Some s1
    /\ fulfilled_with s1 0 = Some SQFLint.new_ParseInfo
    /\ log s1 = ["SQFLint: Failed to run sqflint. Do you have java installed?"].
Proof.
  destruct (close_logs_nonzero_only JSON.decode Sample.in_flight 0 _ _ None
              reachable_in_flight running_in_flight)
    as (s1 & H1 & H2 & _ & H4).
  exists s1. split; [exact H1|]. split; [exact H2|]. apply H4. discriminate.
Defined.

Lemma burst_keeps_last_witness :
  exists s' t,
    run JSON.decode Sample.in_flight (Call <$> ["a"; "ab"; "abc"]) = Some s'
    /\ promise_state s' 1 = Some (Rejected NoPayload)
    /\ promise_state s' 2 = Some (Rejected NoPayload)
    /\ promise_state s' 3 = Some Pending
    /\ timers s' = [t].
Proof.
  destruct (burst_keeps_last JSON.decode Sample.in_flight ["a"; "ab"] "abc"
              reachable_in_flight)
    as (s' & t & H1 & H2 & H3 & _ & H5 & _).
  exists s', t. split; [exact H1|].
  split; [exact (H2 0 ltac:(cbn; lia))|].
  split; [exact (H2 1 ltac:(cbn; lia))|].
  split; [exact H3|exact H5].
Defined.
